(** * HostHunter (wolf.go): a worker-pool HTTP prober

    A shallow embedding of [wolf.go] and the properties of its pipeline:
    feeder -> N workers -> aggregator, with the shared [StatusChecker]
    guarded by one mutex.

    Layout:
    - Go library functions the program calls ([strings.HasPrefix],
      [strings.TrimPrefix], [strconv.Atoi], [bufio.Scanner]) and the [int]
      and [float64] arithmetic it uses;
    - the data types of the source ([Result], [StatusChecker]);
    - [checkDomain] as one sequential function;
    - the goroutines of [main] as an interleaving semantics: every goroutine
      is a program counter, every channel operation, mutex operation and
      access to the shared [StatusChecker] is one step;
    - the start-up part of [main] (arguments, host file, speed prompt);
    - the theorems. *)

From Stdlib Require Import ZArith QArith Qcanon Lia Ascii.
From stdpp Require Import base list relations strings.

Set Default Proof Using "Type*".
(* [naive_solver] clears hypotheses that may be gone already. *)
#[local] Set Warnings "-clear-no-such-hyp".

(* ===================================================================== *)
(** ** Go library functions and machine arithmetic                        *)
(* ===================================================================== *)

Module Go.

(** [int] on a 64-bit platform: arithmetic wraps around. *)
Definition MaxInt : Z := 2 ^ 63 - 1.
Definition MinInt : Z := - 2 ^ 63.
Definition wrap (z : Z) : Z := ((z + 2 ^ 63) mod 2 ^ 64 - 2 ^ 63)%Z.
Definition int_add (a b : Z) : Z := wrap (a + b).
Definition int_sub (a b : Z) : Z := wrap (a - b).

(** [len(s)] of a slice, as an [int]. *)
Definition len {A} (l : list A) : Z := Z.of_nat (length l).

(** [strings.HasPrefix]:
    [len(s) >= len(prefix) && s[:len(prefix)] == prefix]. *)
Definition HasPrefix (s prefix : string) : bool :=
  (String.length prefix <=? String.length s)%nat
  && String.eqb (String.substring 0 (String.length prefix) s) prefix.

(** [strings.TrimPrefix]:
    [if HasPrefix(s, prefix) { return s[len(prefix):] }; return s]. *)
Definition TrimPrefix (s prefix : string) : string :=
  if HasPrefix s prefix
  then String.substring (String.length prefix)
                        (String.length s - String.length prefix) s
  else s.

(** [strconv.Atoi]: an optional sign, then one or more decimal digits;
    a value outside [int] is an error. *)
Definition digit (c : Ascii.ascii) : option Z :=
  let n := Ascii.N_of_ascii c in
  if ((48 <=? n) && (n <=? 57))%N then Some (Z.of_N n - 48)%Z else None.

Fixpoint digits (acc : Z) (s : string) : option Z :=
  match s with
  | EmptyString => Some acc
  | String c s' =>
      match digit c with
      | Some d => digits (10 * acc + d)%Z s'
      | None => None
      end
  end.

Definition unsigned (s : string) : option Z :=
  match s with
  | EmptyString => None
  | _ => digits 0 s
  end.

Definition in_int (z : Z) : option Z :=
  if ((MinInt <=? z) && (z <=? MaxInt))%Z then Some z else None.

Definition Atoi (s : string) : option Z :=
  match s with
  | EmptyString => None
  | String "+"%char s' => n ← unsigned s'; in_int n
  | String "-"%char s' => n ← unsigned s'; in_int (- n)
  | _ => n ← unsigned s; in_int n
  end.

End Go.

(** [bufio.Scanner] as [main] uses it: made by [bufio.NewScanner(file)],
    so with the split function [ScanLines] and the default buffer, and asked
    with [Scan] and [Text] only.  [main] never calls [scanner.Err()]. *)
Module bufio.

(** [MaxScanTokenSize = 64 * 1024], the size the buffer may grow to. *)
Definition MaxScanTokenSize : Z := 64 * 1024.

(** [dropCR]: [ScanLines] hands out a line without its trailing "\r". *)
Fixpoint dropCR (data : string) : string :=
  match data with
  | EmptyString => EmptyString
  | String c EmptyString => if Ascii.eqb c "013" then EmptyString else data
  | String c rest => String c (dropCR rest)
  end.

(** The tokens that successive calls of [Scan] deliver, [buf] being what
    the buffer holds of the line that is being read and [data] what is left
    to read.
    - At a newline the line in the buffer is the next token.
    - A byte that would fill the buffer without a newline in it ends the
      scan with [ErrTooLong]: [Scan] returns [false] then and ever after.
    - When the data are at their end, what the buffer holds is the last
      token, unless it is empty.  The data end at the end of the file or at
      a read that fails; [Scan] treats the two alike, they differ only in
      [scanner.Err()]. *)
Fixpoint scan (buf data : string) : list string :=
  match data with
  | EmptyString =>
      match buf with
      | EmptyString => []
      | _ => [dropCR buf]
      end
  | String c data' =>
      if Ascii.eqb c "010" then dropCR buf :: scan EmptyString data'
      else if (MaxScanTokenSize <=? Z.of_nat (String.length buf) + 1)%Z then []
      else scan (buf +:+ String c EmptyString) data'
  end.

(** [for scanner.Scan() { ... scanner.Text() ... }] on a fresh scanner. *)
Definition Scan (content : string) : list string := scan EmptyString content.

End bufio.

(** [float64]: the program converts two [int]s, divides them and multiplies
    by [100].  The operations are an interface; its laws are the ones the
    proofs use, and all of them hold of IEEE-754 binary64 with
    round-to-nearest: the conversion from [int], the division by a positive
    number and the multiplication by [100] are monotone, [x / x] is exactly
    [1] for the image of a positive [int], and [1 * x] is exactly [x] for
    the image of an [int]. *)
Class Float64 (F : Type) := {
  f64_of_int : Z → F;
  f64_div : F → F → F;
  f64_mul : F → F → F;
  f64_le : F → F → Prop;
  f64_of_int_mono : ∀ a b, (a ≤ b)%Z → f64_le (f64_of_int a) (f64_of_int b);
  f64_div_mono : ∀ x y t, (0 < t)%Z → f64_le x y →
    f64_le (f64_div x (f64_of_int t)) (f64_div y (f64_of_int t));
  f64_mul_mono : ∀ x y, f64_le x y →
    f64_le (f64_mul x (f64_of_int 100)) (f64_mul y (f64_of_int 100));
  f64_div_self : ∀ t, (0 < t)%Z →
    f64_div (f64_of_int t) (f64_of_int t) = f64_of_int 1;
  f64_mul_one : ∀ a, f64_mul (f64_of_int 1) (f64_of_int a) = f64_of_int a;
}.

(* ===================================================================== *)
(** ** Data model                                                         *)
(* ===================================================================== *)

(** [net/http] as the program sees it: [Get] fails with an error or hands
    back a response, whose [Body] is a stream the caller may read and must
    close. *)
Module http.
Record ReadCloser := { unread : string; isClosed : bool }.
Record Response := { StatusCode : Z; Body : ReadCloser }.
Inductive GetResult :=
  | Failed (err : string)
  | Ok (resp : Response).

(** [resp.Body.Close()] *)
Definition Close (b : ReadCloser) : ReadCloser :=
  {| unread := unread b; isClosed := true |}.
End http.

(** Configuration constants. *)
Definition bufferSize : Z := 100.
Definition retryAttempts : Z := 0.

(** [Result]: the outcome of checking a domain.  [Duration] is wall-clock
    time and is left out; [Error] is [nil] ([None]) or an error. *)
Record Result := {
  Domain : string;
  StatusCode : Z;
  Error : option string;
}.

(** [StatusChecker].  Of its fields, [client] is the environment ([http.Get]
    above), [startTime] is wall-clock time, and [mu] is kept next to the
    checker in the configuration of the running program. *)
Record StatusChecker := {
  successfulDomains : list string;
  totalDomains : Z;
  processedDomains : Z;
}.

Definition NewStatusChecker (totalDomains : Z) : StatusChecker :=
  {| successfulDomains := []; totalDomains := totalDomains;
     processedDomains := 0 |}.

(** The status test of [checkDomain]:
    [resp.StatusCode >= 1 && resp.StatusCode <= 500]. *)
Definition recorded (code : Z) : bool := (1 <=? code)%Z && (code <=? 500)%Z.

(** The first statement of [checkDomain]:
    [if !strings.HasPrefix(domain, "http") { domain = "https://" + domain }] *)
Definition withScheme (domain : string) : string :=
  if negb (Go.HasPrefix domain "http") then "https://" +:+ domain else domain.

(** ** [checkDomain], sequentially

    What one call does when nothing runs in between: the URL it hands to
    [sc.client.Get], the response as it leaves it behind (after the deferred
    [resp.Body.Close()]), the checker afterwards and the [Result] returned. *)
Record Checked := {
  requested : string;
  response : option http.Response;
  checker : StatusChecker;
  returned : Result;
}.

Definition checkDomain (Get : string → http.GetResult)
    (sc : StatusChecker) (domain : string) : Checked :=
  let domain := withScheme domain in
  match Get domain with
  | http.Failed err =>
      {| requested := domain; response := None; checker := sc;
         returned := {| Domain := domain; StatusCode := 0; Error := Some err |} |}
  | http.Ok resp =>
      let '(sc, domain') :=
        if recorded (http.StatusCode resp) then
          (* sc.mu.Lock() *)
          let domain' := Go.TrimPrefix domain "https://" in
          ({| successfulDomains := successfulDomains sc ++ [domain'];
              totalDomains := totalDomains sc;
              processedDomains := processedDomains sc |}, domain')
          (* sc.mu.Unlock() *)
        else (sc, domain) in
      {| requested := domain;
         response := Some {| http.StatusCode := http.StatusCode resp;
                             http.Body := http.Close (http.Body resp) |};
         checker := sc;
         returned := {| Domain := domain'; StatusCode := http.StatusCode resp;
                        Error := None |} |}
  end.

(* ===================================================================== *)
(** ** The running program: goroutines, channels, mutex                   *)
(* ===================================================================== *)

(** The semantics is an interleaving one: a step is one operation of one
    goroutine on the shared state, and the scheduler may pick any goroutine
    that can move.  This is the behaviour Go's memory model gives a program
    without data races, which this one is: [successfulDomains] is written
    under [sc.mu] only and read by [main] after [results] has been closed,
    and [processedDomains] is touched by the main goroutine only.  The
    statement [sc.successfulDomains = append(sc.successfulDomains, domain)]
    and the statement [sc.processedDomains++] are each a read followed by a
    store, two steps.  How long a request takes is not part of the state. *)

(** Goroutines that take [sc.mu]. *)
Inductive Tid :=
  | TWorker (i : nat)
  | TMain.

(** A buffered channel: the queued elements, oldest first, and whether it
    has been closed. *)
Record Chan (A : Type) := { buf : list A; closed : bool }.
Arguments buf {A} _.
Arguments closed {A} _.

Definition chan_push {A} (x : A) (ch : Chan A) : Chan A :=
  {| buf := buf ch ++ [x]; closed := closed ch |}.
Definition chan_pop {A} (ch : Chan A) : Chan A :=
  {| buf := tail (buf ch); closed := closed ch |}.
Definition chan_close {A} (ch : Chan A) : Chan A :=
  {| buf := buf ch; closed := true |}.
Definition chan_full {A} (ch : Chan A) : bool := (bufferSize <=? Go.len (buf ch))%Z.

(** The feeding goroutine: [for _, domain := range domainsList] with the
    elements still to send, then [close(domains)]. *)
Inductive FeederPc :=
  | FSend (rest : list string)
  | FDone.

(** A goroutine running [worker], with [checkDomain] inlined.  Each
    constructor is the point before the named operation. *)
Inductive WorkerPc :=
  | WRecv                                             (* domain := <-domains *)
  | WGet (domain : string)                            (* sc.client.Get *)
  | WLock (domain : string) (code : Z)                (* sc.mu.Lock() *)
  | WRead (domain : string) (code : Z)                (* TrimPrefix; read the slice *)
  | WWrite (domain : string) (code : Z) (old : list string) (* store append(old, domain) *)
  | WUnlock (domain : string) (code : Z)              (* sc.mu.Unlock() *)
  | WSend (r : Result)                                (* results <- r *)
  | WExit.                                            (* after wg.Done() *)

(** The goroutine [func() { wg.Wait(); close(results) }]. *)
Inductive CloserPc :=
  | CWait
  | CClose
  | CDone.

(** One line printed by [processResults]: its two [Printf] branches, with
    the fields of the result they show and the percentage. *)
Inductive Line (F : Type) :=
  | LFailed (domain : string) (percentage : F)
  | LStatus (domain : string) (code : Z) (percentage : F).
Arguments LFailed {F} _ _.
Arguments LStatus {F} _ _ _.

(** The main goroutine inside [processResults]. *)
Inductive ReportPc (F : Type) :=
  | PRecv                                   (* result := <-results *)
  | PLock (r : Result)                      (* sc.mu.Lock() *)
  | PIncRead (r : Result)                   (* read sc.processedDomains *)
  | PIncWrite (r : Result) (old : Z)        (* store old + 1 *)
  | PPercent (r : Result)                   (* percentage := ... *)
  | PUnlock (r : Result) (percentage : F)   (* sc.mu.Unlock() *)
  | PPrint (r : Result) (percentage : F)    (* fmt.Printf *)
  | PDone.                                  (* processResults has returned *)
Arguments PRecv {F}.
Arguments PLock {F} _.
Arguments PIncRead {F} _.
Arguments PIncWrite {F} _ _.
Arguments PPercent {F} _.
Arguments PUnlock {F} _ _.
Arguments PPrint {F} _ _.
Arguments PDone {F}.

(** One request that went out, with its answer. *)
Record Probe := { request : string; answer : http.GetResult }.

(** The state of the running program.  [wire] and [stdout] are what it has
    sent to the network and printed so far. *)
Record Config (F : Type) := {
  sc : StatusChecker;
  mu : option Tid;
  domains : Chan string;
  results : Chan Result;
  wg : Z;
  feeder : FeederPc;
  workers : list WorkerPc;
  closer : CloserPc;
  reporter : ReportPc F;
  wire : list Probe;
  stdout : list (Line F);
}.
Arguments sc {F} _.
Arguments mu {F} _.
Arguments domains {F} _.
Arguments results {F} _.
Arguments wg {F} _.
Arguments feeder {F} _.
Arguments workers {F} _.
Arguments closer {F} _.
Arguments reporter {F} _.
Arguments wire {F} _.
Arguments stdout {F} _.

(** What a goroutine does when it is scheduled. *)
Inductive Outcome (F : Type) :=
  | Blocked                  (* it cannot move now, or it has finished *)
  | Panic (msg : string)     (* a run-time panic: the process dies *)
  | Next (c : Config F).
Arguments Blocked {F}.
Arguments Panic {F} _.
Arguments Next {F} _.

(** The scheduler's choice: which goroutine moves; for a worker, also what
    the network answers should the worker be at its [Get]. *)
Inductive Action :=
  | Feed
  | Work (i : nat) (net : http.GetResult)
  | Close
  | Report.

Section Pipeline.
Context {F : Type} `{Float64 F}.

Local Abbreviation Config := (Config F).
Local Abbreviation Outcome := (Outcome F).

(** *** Field updates *)

Definition set_successful (l : list string) (c : Config) : Config :=
  {| sc := {| successfulDomains := l; totalDomains := totalDomains (sc c);
              processedDomains := processedDomains (sc c) |};
     mu := mu c; domains := domains c; results := results c; wg := wg c;
     feeder := feeder c; workers := workers c; closer := closer c;
     reporter := reporter c; wire := wire c; stdout := stdout c |}.

Definition set_processed (p : Z) (c : Config) : Config :=
  {| sc := {| successfulDomains := successfulDomains (sc c);
              totalDomains := totalDomains (sc c); processedDomains := p |};
     mu := mu c; domains := domains c; results := results c; wg := wg c;
     feeder := feeder c; workers := workers c; closer := closer c;
     reporter := reporter c; wire := wire c; stdout := stdout c |}.

Definition set_mu (m : option Tid) (c : Config) : Config :=
  {| sc := sc c; mu := m; domains := domains c; results := results c;
     wg := wg c; feeder := feeder c; workers := workers c;
     closer := closer c; reporter := reporter c; wire := wire c;
     stdout := stdout c |}.

Definition set_domains (ch : Chan string) (c : Config) : Config :=
  {| sc := sc c; mu := mu c; domains := ch; results := results c;
     wg := wg c; feeder := feeder c; workers := workers c;
     closer := closer c; reporter := reporter c; wire := wire c;
     stdout := stdout c |}.

Definition set_results (ch : Chan Result) (c : Config) : Config :=
  {| sc := sc c; mu := mu c; domains := domains c; results := ch;
     wg := wg c; feeder := feeder c; workers := workers c;
     closer := closer c; reporter := reporter c; wire := wire c;
     stdout := stdout c |}.

Definition set_wg (n : Z) (c : Config) : Config :=
  {| sc := sc c; mu := mu c; domains := domains c; results := results c;
     wg := n; feeder := feeder c; workers := workers c;
     closer := closer c; reporter := reporter c; wire := wire c;
     stdout := stdout c |}.

Definition set_feeder (pc : FeederPc) (c : Config) : Config :=
  {| sc := sc c; mu := mu c; domains := domains c; results := results c;
     wg := wg c; feeder := pc; workers := workers c;
     closer := closer c; reporter := reporter c; wire := wire c;
     stdout := stdout c |}.

Definition set_worker (i : nat) (pc : WorkerPc) (c : Config) : Config :=
  {| sc := sc c; mu := mu c; domains := domains c; results := results c;
     wg := wg c; feeder := feeder c; workers := <[i:=pc]> (workers c);
     closer := closer c; reporter := reporter c; wire := wire c;
     stdout := stdout c |}.

Definition set_closer (pc : CloserPc) (c : Config) : Config :=
  {| sc := sc c; mu := mu c; domains := domains c; results := results c;
     wg := wg c; feeder := feeder c; workers := workers c;
     closer := pc; reporter := reporter c; wire := wire c;
     stdout := stdout c |}.

Definition set_reporter (pc : ReportPc F) (c : Config) : Config :=
  {| sc := sc c; mu := mu c; domains := domains c; results := results c;
     wg := wg c; feeder := feeder c; workers := workers c;
     closer := closer c; reporter := pc; wire := wire c;
     stdout := stdout c |}.

Definition sent (p : Probe) (c : Config) : Config :=
  {| sc := sc c; mu := mu c; domains := domains c; results := results c;
     wg := wg c; feeder := feeder c; workers := workers c;
     closer := closer c; reporter := reporter c; wire := wire c ++ [p];
     stdout := stdout c |}.

Definition printed (l : Line F) (c : Config) : Config :=
  {| sc := sc c; mu := mu c; domains := domains c; results := results c;
     wg := wg c; feeder := feeder c; workers := workers c;
     closer := closer c; reporter := reporter c; wire := wire c;
     stdout := stdout c ++ [l] |}.

(** *** The goroutines *)

(** [go func() { for _, domain := range domainsList { domains <- domain };
    close(domains) }()] *)
Definition feed (c : Config) : Outcome :=
  match feeder c with
  | FSend (domain :: rest) =>
      if closed (domains c) then Panic "send on closed channel"
      else if chan_full (domains c) then Blocked
      else Next (set_feeder (FSend rest)
                   (set_domains (chan_push domain (domains c)) c))
  | FSend [] =>
      if closed (domains c) then Panic "close of closed channel"
      else Next (set_feeder FDone (set_domains (chan_close (domains c)) c))
  | FDone => Blocked
  end.

(** [worker], with the body of [checkDomain] in place of the call. *)
Definition worker (i : nat) (net : http.GetResult) (c : Config) : Outcome :=
  match workers c !! i with
  | None => Blocked
  | Some WRecv =>
      (* for domain := range domains *)
      match buf (domains c) with
      | domain :: _ =>
          Next (set_worker i (WGet domain) (set_domains (chan_pop (domains c)) c))
      | [] =>
          if closed (domains c) then
            (* the loop ends; the deferred wg.Done() runs *)
            if (wg c - 1 <? 0)%Z then Panic "sync: negative WaitGroup counter"
            else Next (set_worker i WExit (set_wg (wg c - 1) c))
          else Blocked
      end
  | Some (WGet domain) =>
      let domain := withScheme domain in
      let c := sent {| request := domain; answer := net |} c in
      match net with
      | http.Failed err =>
          Next (set_worker i
                  (WSend {| Domain := domain; StatusCode := 0; Error := Some err |}) c)
      | http.Ok resp =>
          if recorded (http.StatusCode resp)
          then Next (set_worker i (WLock domain (http.StatusCode resp)) c)
          else Next (set_worker i
                       (WSend {| Domain := domain;
                                 StatusCode := http.StatusCode resp;
                                 Error := None |}) c)
      end
  | Some (WLock domain code) =>
      match mu c with
      | None => Next (set_worker i (WRead domain code) (set_mu (Some (TWorker i)) c))
      | Some _ => Blocked
      end
  | Some (WRead domain code) =>
      Next (set_worker i
              (WWrite (Go.TrimPrefix domain "https://") code
                      (successfulDomains (sc c))) c)
  | Some (WWrite domain code old) =>
      Next (set_worker i (WUnlock domain code) (set_successful (old ++ [domain]) c))
  | Some (WUnlock domain code) =>
      match mu c with
      | None => Panic "sync: unlock of unlocked mutex"
      | Some _ =>
          Next (set_worker i
                  (WSend {| Domain := domain; StatusCode := code; Error := None |})
                  (set_mu None c))
      end
  | Some (WSend r) =>
      if closed (results c) then Panic "send on closed channel"
      else if chan_full (results c) then Blocked
      else Next (set_worker i WRecv (set_results (chan_push r (results c)) c))
  | Some WExit => Blocked
  end.

(** [go func() { wg.Wait(); close(results) }()] *)
Definition close (c : Config) : Outcome :=
  match closer c with
  | CWait => if (wg c =? 0)%Z then Next (set_closer CClose c) else Blocked
  | CClose =>
      if closed (results c) then Panic "close of closed channel"
      else Next (set_closer CDone (set_results (chan_close (results c)) c))
  | CDone => Blocked
  end.

(** [float64(sc.processedDomains) / float64(sc.totalDomains) * 100] *)
Definition percentage (s : StatusChecker) : F :=
  f64_mul (f64_div (f64_of_int (processedDomains s)) (f64_of_int (totalDomains s)))
          (f64_of_int 100).

(** The two [Printf] branches of [processResults]. *)
Definition line (r : Result) (pct : F) : Line F :=
  match Error r with
  | Some _ => LFailed (Domain r) pct
  | None => LStatus (Domain r) (StatusCode r) pct
  end.

(** [processResults], run by the main goroutine. *)
Definition processResults (c : Config) : Outcome :=
  match reporter c with
  | PRecv =>
      (* for result := range results *)
      match buf (results c) with
      | r :: _ => Next (set_reporter (PLock r) (set_results (chan_pop (results c)) c))
      | [] => if closed (results c) then Next (set_reporter PDone c) else Blocked
      end
  | PLock r =>
      match mu c with
      | None => Next (set_reporter (PIncRead r) (set_mu (Some TMain) c))
      | Some _ => Blocked
      end
  | PIncRead r => Next (set_reporter (PIncWrite r (processedDomains (sc c))) c)
  | PIncWrite r old =>
      Next (set_reporter (PPercent r) (set_processed (Go.int_add old 1) c))
  | PPercent r => Next (set_reporter (PUnlock r (percentage (sc c))) c)
  | PUnlock r pct =>
      match mu c with
      | None => Panic "sync: unlock of unlocked mutex"
      | Some _ => Next (set_reporter (PPrint r pct) (set_mu None c))
      end
  | PPrint r pct => Next (set_reporter PRecv (printed (line r pct) c))
  | PDone => Blocked
  end.

Definition exec (a : Action) (c : Config) : Outcome :=
  match a with
  | Feed => feed c
  | Work i net => worker i net c
  | Close => close c
  | Report => processResults c
  end.

(** The program at the point where [main] has started its goroutines and
    calls [processResults]: [numWorkers] workers at their first receive,
    [wg] counting them, both channels empty and open.  A goroutine that
    [main] has yet to start is one the scheduler has yet to pick, and before
    the feeder runs no worker can move, so the runs from this configuration
    include those of the program. *)
Definition start (domainsList : list string) (numWorkers : nat) : Config :=
  {| sc := NewStatusChecker (Go.len domainsList);
     mu := None;
     domains := {| buf := []; closed := false |};
     results := {| buf := []; closed := false |};
     wg := Z.of_nat numWorkers;
     feeder := FSend domainsList;
     workers := replicate numWorkers WRecv;
     closer := CWait;
     reporter := PRecv;
     wire := [];
     stdout := [] |}.

(** One step, and the configurations a run can reach. *)
Definition step (c c' : Config) : Prop := ∃ a, exec a c = Next c'.

Definition reachable (domainsList : list string) (numWorkers : nat)
    (c : Config) : Prop :=
  rtc step (start domainsList numWorkers) c.

(** Running a schedule: every action of it must be able to move. *)
Fixpoint run (sched : list Action) (c : Config) : option Config :=
  match sched with
  | [] => Some c
  | a :: sched' =>
      match exec a c with
      | Next c' => run sched' c'
      | _ => None
      end
  end.

(** [processResults] has returned. *)
Definition finished (c : Config) : Prop := reporter c = PDone.

End Pipeline.

(* ===================================================================== *)
(** ** Book-keeping over configurations                                   *)
(* ===================================================================== *)

(** What a probe's [Result] is, and whether it is recorded as successful. *)
Definition outcome (p : Probe) : Result :=
  match answer p with
  | http.Failed err =>
      {| Domain := request p; StatusCode := 0; Error := Some err |}
  | http.Ok resp =>
      {| Domain := if recorded (http.StatusCode resp)
                   then Go.TrimPrefix (request p) "https://" else request p;
         StatusCode := http.StatusCode resp; Error := None |}
  end.

Definition qualifies (p : Probe) : bool :=
  match answer p with
  | http.Failed _ => false
  | http.Ok resp => recorded (http.StatusCode resp)
  end.

(** The part of a result that its printed line shows: the domain, and the
    status code unless the line is the failure line. *)
Definition shown (r : Result) : string * option Z :=
  (Domain r, match Error r with Some _ => None | None => Some (StatusCode r) end).

Definition line_shown {F} (l : Line F) : string * option Z :=
  match l with
  | LFailed domain _ => (domain, None)
  | LStatus domain code _ => (domain, Some code)
  end.

Definition line_percentage {F} (l : Line F) : F :=
  match l with
  | LFailed _ pct => pct
  | LStatus _ _ pct => pct
  end.

(** Domains still with the feeder. *)
Definition unfed (pc : FeederPc) : list string :=
  match pc with
  | FSend rest => rest
  | FDone => []
  end.

(** A worker's domain received but not yet requested. *)
Definition held (pc : WorkerPc) : list string :=
  match pc with
  | WGet domain => [domain]
  | _ => []
  end.

(** A worker's result not yet sent. *)
Definition unsent (pc : WorkerPc) : list Result :=
  match pc with
  | WLock domain code | WRead domain code =>
      [{| Domain := Go.TrimPrefix domain "https://"; StatusCode := code;
          Error := None |}]
  | WWrite domain code _ | WUnlock domain code =>
      [{| Domain := domain; StatusCode := code; Error := None |}]
  | WSend r => [r]
  | _ => []
  end.

(** A worker's successful domain not yet appended. *)
Definition unrecorded (pc : WorkerPc) : list string :=
  match pc with
  | WLock domain _ | WRead domain _ => [Go.TrimPrefix domain "https://"]
  | WWrite domain _ _ => [domain]
  | _ => []
  end.

(** Between [sc.mu.Lock()] and [sc.mu.Unlock()]. *)
Definition critical (pc : WorkerPc) : bool :=
  match pc with
  | WRead _ _ | WWrite _ _ _ | WUnlock _ _ => true
  | _ => false
  end.

Definition alive (pc : WorkerPc) : list unit :=
  match pc with
  | WExit => []
  | _ => [()]
  end.

(** The reporter's result received but not yet printed. *)
Definition unprinted {F} (pc : ReportPc F) : list Result :=
  match pc with
  | PLock r | PIncRead r | PIncWrite r _ | PPercent r
  | PUnlock r _ | PPrint r _ => [r]
  | _ => []
  end.

(** [1] once the reporter has counted the result it holds. *)
Definition counted {F} (pc : ReportPc F) : Z :=
  match pc with
  | PPercent _ | PUnlock _ _ | PPrint _ _ => 1
  | _ => 0
  end.

Definition reporting_critical {F} (pc : ReportPc F) : bool :=
  match pc with
  | PIncRead _ | PIncWrite _ _ | PPercent _ | PUnlock _ _ => true
  | _ => false
  end.

(** Collecting over all workers. *)
Definition gather {A} (f : WorkerPc → list A) (ws : list WorkerPc) : list A :=
  ws ≫= f.

(* ===================================================================== *)
(** ** The invariant of the running program                               *)
(* ===================================================================== *)

Section Invariants.
Context {F : Type} `{Float64 F}.
Local Abbreviation Config := (Config F).

(** The percentage printed with the [k]-th result out of [total]. *)
Definition percent_of (total k : Z) : F :=
  f64_mul (f64_div (f64_of_int k) (f64_of_int total)) (f64_of_int 100).

(** What holds in every configuration a run on [ds] with [n] workers can
    reach.
    - conservation: every input domain is with the feeder, in [domains],
      held by a worker, or has been requested; every request's result is
      with a worker, in [results], with the reporter, or printed; every
      qualifying request's domain is about to be appended or in
      [successfulDomains];
    - the mutex: a goroutine is between [Lock] and [Unlock] exactly when it
      is the holder, and the value it read for an update is still current;
    - the counters and the printed percentages;
    - the life cycle of the two channels and the wait group. *)
Record Inv (ds : list string) (n : nat) (c : Config) : Prop := {
  inv_fits : (Go.len ds ≤ Go.MaxInt)%Z;
  inv_total : totalDomains (sc c) = Go.len ds;
  inv_workers : length (workers c) = n;
  inv_domains :
    withScheme <$> ds ≡ₚ
      (request <$> wire c) ++
      (withScheme <$> (gather held (workers c) ++ buf (domains c) ++ unfed (feeder c)));
  inv_results :
    shown ∘ outcome <$> wire c ≡ₚ
      (line_shown <$> stdout c) ++
      (shown <$> (unprinted (reporter c) ++ buf (results c) ++ gather unsent (workers c)));
  inv_success :
    (λ p, Go.TrimPrefix (request p) "https://") <$> filter qualifies (wire c) ≡ₚ
      successfulDomains (sc c) ++ gather unrecorded (workers c);
  inv_snapshot : ∀ i domain code old,
    workers c !! i = Some (WWrite domain code old) → old = successfulDomains (sc c);
  inv_mu_worker : ∀ i pc,
    workers c !! i = Some pc → (critical pc = true ↔ mu c = Some (TWorker i));
  inv_mu_valid : ∀ i, mu c = Some (TWorker i) → i < length (workers c);
  inv_mu_main : reporting_critical (reporter c) = true ↔ mu c = Some TMain;
  inv_processed :
    processedDomains (sc c) = (Go.len (stdout c) + counted (reporter c))%Z;
  inv_incr : ∀ r old, reporter c = PIncWrite r old → old = processedDomains (sc c);
  inv_pct : ∀ r p,
    reporter c = PUnlock r p ∨ reporter c = PPrint r p → p = percentage (sc c);
  inv_stdout :
    line_percentage <$> stdout c =
      (λ k, percent_of (Go.len ds) (Z.of_nat k)) <$> seq 1 (length (stdout c));
  inv_feeder : closed (domains c) = true ↔ feeder c = FDone;
  inv_wg : wg c = Go.len (gather alive (workers c));
  inv_exited : ∀ i,
    workers c !! i = Some WExit → closed (domains c) = true ∧ buf (domains c) = [];
  inv_closer : closer c ≠ CWait → wg c = 0%Z;
  inv_closed : closed (results c) = true ↔ closer c = CDone;
  inv_done :
    reporter c = PDone → closed (results c) = true ∧ buf (results c) = [];
}.

(** The state in which [processResults] returns. *)
Record Final (ds : list string) (c : Config) : Prop := {
  fin_mu : mu c = None;
  fin_requests : request <$> wire c ≡ₚ withScheme <$> ds;
  fin_lines : line_shown <$> stdout c ≡ₚ shown ∘ outcome <$> wire c;
  fin_success :
    successfulDomains (sc c) ≡ₚ
      (λ p, Go.TrimPrefix (request p) "https://") <$> filter qualifies (wire c);
  fin_processed : processedDomains (sc c) = Go.len ds;
  fin_printed : length (stdout c) = length ds;
  fin_total : totalDomains (sc c) = Go.len ds;
  fin_drained : buf (results c) = [] ∧ closed (results c) = true;
  fin_workers : ∀ i pc, workers c !! i = Some pc → pc = WExit;
}.

(** When a worker, and when the reporter, can move. *)
Definition worker_ready (c : Config) (pc : WorkerPc) : Prop :=
  match pc with
  | WRecv => buf (domains c) ≠ [] ∨ (closed (domains c) = true ∧ (1 ≤ wg c)%Z)
  | WLock _ _ => mu c = None
  | WUnlock _ _ => mu c ≠ None
  | WSend _ => closed (results c) = false ∧ chan_full (results c) = false
  | WExit => False
  | _ => True
  end.

Definition reporter_ready (c : Config) : Prop :=
  match reporter c with
  | PRecv => buf (results c) ≠ [] ∨ closed (results c) = true
  | PLock _ => mu c = None
  | PUnlock _ _ => mu c ≠ None
  | PDone => False
  | _ => True
  end.

End Invariants.

(** *** A bound on the steps a configuration has left *)

Definition feeder_weight (pc : FeederPc) : nat :=
  match pc with
  | FSend rest => 1 + 15 * length rest
  | FDone => 0
  end.

Definition worker_weight (pc : WorkerPc) : nat :=
  match pc with
  | WGet _ => 14
  | WLock _ _ => 13
  | WRead _ _ => 12
  | WWrite _ _ _ => 11
  | WUnlock _ _ => 10
  | WSend _ => 9
  | WRecv => 1
  | WExit => 0
  end.

Definition closer_weight (pc : CloserPc) : nat :=
  match pc with
  | CWait => 2
  | CClose => 1
  | CDone => 0
  end.

Definition reporter_weight {F} (pc : ReportPc F) : nat :=
  match pc with
  | PLock _ => 7
  | PIncRead _ => 6
  | PIncWrite _ _ => 5
  | PPercent _ => 4
  | PUnlock _ _ => 3
  | PPrint _ _ => 2
  | PRecv => 1
  | PDone => 0
  end.

Definition fuel {F} (c : Config F) : nat :=
  feeder_weight (feeder c) + 14 * length (buf (domains c))
  + sum_list_with worker_weight (workers c)
  + 7 * length (buf (results c))
  + reporter_weight (reporter c) + closer_weight (closer c).

(* ===================================================================== *)
(** ** [main]                                                             *)
(* ===================================================================== *)

(** What the process writes to standard output, one constructor per
    [Printf]/[Println] of the source (the two timing lines of the summary
    are left out), and the message of a run-time panic. *)
Inductive Output (F : Type) :=
  | OUsage (prog : string)
  | OOpenError (err : string)
  | ONoDomains
  | OBanner
  | OPrompt
  | OInvalid
  | OResult (l : Line F)
  | OSummary (total successful failed : Z)
  | OSuccessful (domain : string)
  | OPanic (msg : string).
Arguments OUsage {F} _.
Arguments OOpenError {F} _.
Arguments ONoDomains {F}.
Arguments OBanner {F}.
Arguments OPrompt {F}.
Arguments OInvalid {F}.
Arguments OResult {F} _.
Arguments OSummary {F} _ _ _.
Arguments OSuccessful {F} _.
Arguments OPanic {F} _.

(** The world [main] starts in: [os.Args] is [prog :: args]; [Open path] is
    the error of [os.Open], or the bytes that the reads of the opened file
    deliver, up to the end of the file or up to a read that fails; [stdin]
    lists what successive [fmt.Scanln(&input)] calls store in [input] (after
    the last one, standard input is at its end and [input] stays empty). *)
Record Env := {
  prog : string;
  args : list string;
  Open : string → string + string;
  stdin : list string;
}.

Inductive Startup (F : Type) :=
  | Fatal (out : list (Output F))        (* os.Exit(1) *)
  | Asking (out : list (Output F))       (* the speed loop never ends *)
  | Ready (domainsList : list string) (numWorkers : Z) (out : list (Output F)).
Arguments Fatal {F} _.
Arguments Asking {F} _.
Arguments Ready {F} _ _ _.

Section Main.
Context {F : Type} `{Float64 F}.
(** [strings.TrimSpace], a function of Go's library. *)
Variable TrimSpace : string → string.

(** The body of the scanner loop of [main], over the tokens the scanner
    delivers. *)
Definition readDomains (lines : list string) : list string :=
  fold_left
    (λ domainsList text,
       let domain := TrimSpace text in
       if String.eqb domain "" then domainsList else domainsList ++ [domain])
    lines [].

(** The speed loop of [main]: what it prints, and the speed it leaves with.
    When the inputs run out, [Scanln] fails, [input] is empty, [Atoi] fails
    and the loop goes round for ever: there is no speed. *)
Fixpoint askSpeed (inputs : list string) : list (Output F) * option Z :=
  match inputs with
  | [] => ([], None)
  | input :: inputs' =>
      match Go.Atoi input with
      | Some speed =>
          if (speed <=? 0)%Z
          then let '(out, r) := askSpeed inputs' in (OInvalid :: out, r)
          else ([], Some speed)
      | None => let '(out, r) := askSpeed inputs' in (OInvalid :: out, r)
      end
  end.

(** [main] up to the point where it starts the goroutines. *)
Definition startup (env : Env) : Startup F :=
  match args env with
  | [] => Fatal [OUsage (prog env)]
  | path :: _ =>
      match Open env path with
      | inl err => Fatal [OOpenError err]
      | inr content =>
          let domainsList := readDomains (bufio.Scan content) in
          if (Go.len domainsList =? 0)%Z then Fatal [ONoDomains]
          else
            match askSpeed (stdin env) with
            | (out, Some speed) => Ready domainsList speed (OBanner :: OPrompt :: out)
            | (out, None) => Asking (OBanner :: OPrompt :: out)
            end
      end
  end.

(** [printGreenDomains] *)
Definition printGreenDomains (s : StatusChecker) : list (Output F) :=
  OSuccessful <$> successfulDomains s.

(** The summary block of [main]. *)
Definition summary (totalDomains : Z) (s : StatusChecker) : list (Output F) :=
  [OSummary totalDomains (Go.len (successfulDomains s))
            (Go.int_sub totalDomains (Go.len (successfulDomains s)))].

(** The ways [main] can end: with which exit status, having printed what.
    A run-time panic ends a Go process with status 2. *)
Inductive main (env : Env) : Z → list (Output F) → Prop :=
  | main_fatal out :
      startup env = Fatal out →
      main env 1 out
  | main_panic domainsList numWorkers out sched c a msg :
      startup env = Ready domainsList numWorkers out →
      run sched (start domainsList (Z.to_nat numWorkers)) = Some c →
      exec a c = Panic msg →
      main env 2 (out ++ (OResult <$> stdout c) ++ [OPanic msg])
  | main_return domainsList numWorkers out sched c :
      startup env = Ready domainsList numWorkers out →
      run sched (start domainsList (Z.to_nat numWorkers)) = Some c →
      finished c →
      main env 0 (out ++ (OResult <$> stdout c)
                      ++ summary (Go.len domainsList) (sc c)
                      ++ printGreenDomains (sc c)).

(** A line that yields a domain. *)
Definition usable (text : string) : Prop := TrimSpace text ≠ "".

(** The three usage errors: no argument, a file that cannot be opened, a
    file from which the scanner delivers no usable line. *)
Definition usage_error (env : Env) : Prop :=
  args env = [] ∨
  (∃ path rest err, args env = path :: rest ∧ Open env path = inl err) ∨
  (∃ path rest content,
     args env = path :: rest ∧ Open env path = inr content ∧
     ∀ text, text ∈ bufio.Scan content → ¬ usable text).

(** The host file has no more bytes than an [int] can count. *)
Definition file_fits (env : Env) : Prop :=
  ∀ path content, Open env path = inr content →
    (Z.of_nat (String.length content) ≤ Go.MaxInt)%Z.

(** A positive speed is typed at some point. *)
Definition speed_given (env : Env) : Prop :=
  ∃ input speed, input ∈ stdin env ∧ Go.Atoi input = Some speed ∧ (0 < speed)%Z.

Definition is_result (o : Output F) : bool :=
  match o with
  | OResult _ => true
  | _ => false
  end.

End Main.

(* ===================================================================== *)
(** ** Notions used to state the properties                               *)
(* ===================================================================== *)

(** A domain in normal form, written with the Standard Library's prefix
    test rather than with [Go.HasPrefix]. *)
Definition normalized (domain : string) : string :=
  if String.prefix "http" domain then domain else "https://" +:+ domain.

(** A string that still carries a scheme. *)
Definition carries_scheme (s : string) : Prop :=
  ∃ scheme rest, s = scheme +:+ "://" +:+ rest.

(** A body that has been read to its end. *)
Definition drained (b : http.ReadCloser) : Prop := http.unread b = "".

(** The host file in terms of its lines.  A line has no newline byte in it;
    [terminated lines] is the file made of these lines, each followed by a
    newline.  A line is too long for the scanner from 64 KiB on, and
    scannable otherwise. *)
Definition newline : string := String "010" EmptyString.

Fixpoint is_line (s : string) : bool :=
  match s with
  | EmptyString => true
  | String c s' => negb (Ascii.eqb c "010") && is_line s'
  end.

Definition terminated (lines : list string) : string :=
  foldr (λ line rest, line +:+ newline +:+ rest) EmptyString lines.

Definition too_long (line : string) : bool :=
  (bufio.MaxScanTokenSize <=? Z.of_nat (String.length line))%Z.

Definition scannable (line : string) : Prop :=
  is_line line = true ∧ too_long line = false.

(** What is left of the file begins with a line that is too long. *)
Definition starts_too_long (tail : string) : Prop :=
  ∃ long rest, tail = long +:+ rest ∧ is_line long = true ∧ too_long long = true.

(* ===================================================================== *)
(** ** A model of [Float64] and a run, for the examples                   *)
(* ===================================================================== *)

(** Exact rational arithmetic satisfies the laws of [Float64]. *)
Definition Qc_of_int (z : Z) : Qc := Q2Qc (inject_Z z).

#[export] Program Instance Qc_Float64 : Float64 Qc := {|
  f64_of_int := Qc_of_int;
  f64_div := Qcdiv;
  f64_mul := Qcmult;
  f64_le := Qcle;
|}.
Next Obligation.
  intros a b Hab. unfold Qc_of_int, Qcle. simpl.
  rewrite !Qred_correct. unfold Qle. simpl. lia.
Qed.
Next Obligation.
  intros x y t Ht Hxy. unfold Qcdiv.
  apply Qcmult_le_compat_r; [done|].
  apply Qclt_le_weak, Qcinv_pos.
  unfold Qc_of_int, Qclt. simpl. rewrite !Qred_correct. unfold Qlt. simpl. lia.
Qed.
Next Obligation.
  intros x y Hxy. apply Qcmult_le_compat_r; [done|]. done.
Qed.
Next Obligation.
  intros t Ht. unfold Qcdiv. rewrite Qcmult_inv_r; [by apply Qc_is_canon|].
  assert (0 < Qc_of_int t)%Qc as Hpos.
  { unfold Qc_of_int, Qclt. simpl. rewrite !Qred_correct.
    unfold Qlt. simpl. lia. }
  intros E. rewrite E in Hpos. by apply Qclt_not_eq in Hpos.
Qed.
Next Obligation.
  intros a. replace (Qc_of_int 1) with 1%Qc by by apply Qc_is_canon.
  apply Qcmult_1_l.
Qed.

(** A stand-in for [strings.TrimSpace] in the examples: it removes leading
    and trailing ASCII white space, which is what the library function does
    on a string of ASCII bytes. *)
Definition isSpace (c : Ascii.ascii) : bool :=
  let n := Ascii.N_of_ascii c in
  ((9 <=? n) && (n <=? 13) || (n =? 32))%N.

Fixpoint trimLeft (s : string) : string :=
  match s with
  | String c s' => if isSpace c then trimLeft s' else s
  | EmptyString => EmptyString
  end.

Fixpoint trimRight (s : string) : string :=
  match s with
  | String c s' =>
      match trimRight s' with
      | EmptyString => if isSpace c then EmptyString else String c EmptyString
      | t => String c t
      end
  | EmptyString => EmptyString
  end.

Definition TrimSpaceASCII (s : string) : string := trimRight (trimLeft s).

(** Three domains, one worker: the first probe is answered 200, the second
    fails, the third is answered 501. *)
Definition demo_domains : list string :=
  ["good.example"; "bad.example"; "weird.example"].

Definition demo_reply (code : Z) : http.GetResult :=
  http.Ok {| http.StatusCode := code;
             http.Body := {| http.unread := "<html>"; http.isClosed := false |} |}.

Definition demo_sched : list Action :=
  let w := Work 0 (demo_reply 200) in
  [Feed; Feed; Feed; Feed;
   w; w; w; w; w; w; w;
   w; Work 0 (http.Failed "connection refused"); w;
   w; Work 0 (demo_reply 501); w;
   w; Close; Close]
  ++ replicate 22 Report.

(** The configuration the run ends in. *)
Definition demo_end : Config Qc :=
  Eval vm_compute in
    default (start demo_domains 1) (run demo_sched (start demo_domains 1)).

(** The configuration after the first domain has been fed and received. *)
Definition demo_probing : Config Qc :=
  Eval vm_compute in
    default (start demo_domains 1)
            (run [Feed; Work 0 (demo_reply 200)] (start demo_domains 1)).

(** A host file with the three domains: a line with blanks around the
    domain, an empty line, a line that ends in "\r\n", and a last line
    without a newline.  And what is typed at the prompt. *)
Definition demo_file : string :=
  terminated ["  good.example "; ""; "bad.example" +:+ String "013" ""]
  +:+ "weird.example".

(** A host file whose first line has 64 KiB, in front of a line with a
    domain; "5" is typed at the prompt. *)
Fixpoint doubled (n : nat) (s : string) : string :=
  match n with
  | 0 => s
  | S n' => doubled n' (s +:+ s)
  end.

Definition long_line : string := doubled 16 "a".

Definition long_file : string :=
  long_line +:+ newline +:+ "good.example" +:+ newline.

Definition long_env : Env :=
  {| prog := "wolf"; args := ["hosts.txt"];
     Open := λ _, inr long_file;
     stdin := ["5"] |}.

Definition demo_env (inputs : list string) : Env :=
  {| prog := "wolf"; args := ["hosts.txt"];
     Open := λ _, inr demo_file;
     stdin := inputs |}.

(* ===================================================================== *)
(** ** Further notions: order, the speed loop, failure lines              *)
(* ===================================================================== *)

Section Order.
Context {F : Type} `{Float64 F}.

(** With a single worker nothing overtakes anything: the conservation laws
    of [Inv] hold as equalities of lists, in order. *)
Record InOrder (ds : list string) (c : Config F) : Prop := {
  ord_domains :
    withScheme <$> ds =
      (request <$> wire c) ++
      (withScheme <$> (gather held (workers c) ++ buf (domains c) ++ unfed (feeder c)));
  ord_results :
    shown ∘ outcome <$> wire c =
      (line_shown <$> stdout c) ++
      (shown <$> (unprinted (reporter c) ++ buf (results c) ++ gather unsent (workers c)));
  ord_success :
    (λ p, Go.TrimPrefix (request p) "https://") <$> filter qualifies (wire c) =
      successfulDomains (sc c) ++ gather unrecorded (workers c);
}.

End Order.

(** An input the speed loop turns down: [err != nil || speed <= 0]. *)
Definition rejected (input : string) : Prop :=
  ∀ n, Go.Atoi input = Some n → (n ≤ 0)%Z.

(** The domain a failure line shows. *)
Definition failure_shown {F} (l : Line F) : option string :=
  match l with
  | LFailed domain _ => Some domain
  | LStatus _ _ _ => None
  end.

(** A probe whose [Get] failed. *)
Definition get_failed (p : Probe) : bool :=
  match answer p with
  | http.Failed _ => true
  | http.Ok _ => false
  end.

(** The domain a status line shows, when its code is one [checkDomain]
    records. *)
Definition recorded_shown {F} (l : Line F) : option string :=
  match l with
  | LFailed _ _ => None
  | LStatus domain code _ => if recorded code then Some domain else None
  end.

(** The example run at the point where its worker holds the mutex, and one
    step later. *)
Definition demo_locked : Config Qc :=
  Eval vm_compute in
    default (start demo_domains 1)
            (run [Feed; Work 0 (demo_reply 200); Work 0 (demo_reply 200);
                  Work 0 (demo_reply 200)] (start demo_domains 1)).

Definition demo_read : Config Qc :=
  Eval vm_compute in
    default demo_locked (run [Work 0 (demo_reply 200)] demo_locked).

(* ===================================================================== *)
(** ** Proof automation                                                   *)
(* ===================================================================== *)

(** One case per transition of the program. *)
Ltac exec_cases Hexec :=
  unfold exec, feed, worker, close, processResults in Hexec;
  repeat case_match; simplify_eq/=.

Ltac open_config c I :=
  destruct c as [[? ? ?] ? [? ?] [? ?] ? ? ? ? ? ? ?];
  destruct I; simpl in *.

(** Collected lists, with [fmap], [filter] and [gather] pushed inside. *)
Ltac flatten :=
  unfold gather in *;
  repeat (rewrite ?bind_app, ?bind_cons, ?fmap_app, ?fmap_cons,
            ?filter_app, ?filter_cons, ?filter_nil in *; simpl in * ).

Ltac use_recorded :=
  unfold outcome, qualifies in *; simpl in *;
  repeat match goal with
  | E : recorded _ = _ |- _ => rewrite ?E in *; clear E
  end.

Ltac use_snapshot :=
  try match goal with
  | Hl : _ !! _ = Some (WWrite _ _ _),
    Hs : ∀ i domain code old, _ !! i = Some (WWrite domain code old) → old = _ |- _ =>
      pose proof (Hs _ _ _ _ Hl); subst
  end.

Ltac lookup_cases :=
  intros;
  repeat match goal with
  | Hl : <[_:=_]> _ !! _ = Some _ |- _ =>
      apply list_lookup_insert_Some in Hl;
      destruct Hl as [(-> & ? & ?)|[? ?]]; simplify_eq/=
  end.

Ltac use_mu :=
  repeat match goal with
  | Hmu : ∀ i pc, ?ws !! i = Some pc → (critical pc = true ↔ _),
    Hl : ?ws !! _ = Some _ |- _ => apply Hmu in Hl; simpl in Hl
  end.

(** One step of worker [i], whose index is in range by [Hlt]. *)
Ltac solo_step Hlt :=
  unfold worker at 1; simpl;
  rewrite ?list_lookup_insert_eq by (rewrite ?length_insert; exact Hlt); simpl.

(* ===================================================================== *)
(** ** Strings                                                            *)
(* ===================================================================== *)

Lemma HasPrefix_nil s : Go.HasPrefix s "" = true.
Proof. unfold Go.HasPrefix. simpl. by destruct s. Qed.

Lemma HasPrefix_empty c p : Go.HasPrefix "" (String c p) = false.
Proof. done. Qed.

Lemma HasPrefix_cons c s d p :
  Go.HasPrefix (String c s) (String d p) = Ascii.eqb c d && Go.HasPrefix s p.
Proof.
  unfold Go.HasPrefix. simpl.
  destruct (Ascii.eqb c d); [done|]. by rewrite andb_false_r.
Qed.

Lemma HasPrefix_app s p : Go.HasPrefix s p = true ↔ ∃ t, s = p +:+ t.
Proof.
  revert s. induction p as [|d p IH]; intros s.
  - rewrite HasPrefix_nil. split; [by exists s|done].
  - destruct s as [|c s].
    + rewrite HasPrefix_empty. split; [done|]. by intros [t ?].
    + rewrite HasPrefix_cons, andb_true_iff, IH. split.
      * intros [->%Ascii.eqb_eq [t ->]]. by exists t.
      * intros [t Ht]. simpl in Ht. injection Ht as -> ->.
        split; [apply Ascii.eqb_refl|by exists t].
Qed.

Lemma substring_all s : String.substring 0 (String.length s) s = s.
Proof. induction s; simpl; by f_equal. Qed.

Lemma TrimPrefix_app p t : Go.TrimPrefix (p +:+ t) p = t.
Proof.
  unfold Go.TrimPrefix.
  replace (Go.HasPrefix (p +:+ t) p) with true
    by (symmetry; apply HasPrefix_app; by exists t).
  induction p as [|d p IH]; simpl.
  - rewrite Nat.sub_0_r. apply substring_all.
  - apply IH.
Qed.

Lemma TrimPrefix_other s p : Go.HasPrefix s p = false → Go.TrimPrefix s p = s.
Proof. unfold Go.TrimPrefix. by intros ->. Qed.

Lemma HasPrefix_prefix s p : Go.HasPrefix s p = String.prefix p s.
Proof.
  revert s. induction p as [|d p IH]; intros [|c s]; try done.
  rewrite HasPrefix_cons. simpl.
  destruct (Ascii.ascii_dec d c) as [->|Hne].
  - by rewrite Ascii.eqb_refl, IH.
  - destruct (Ascii.eqb_spec c d); [congruence|done].
Qed.

Example HasPrefix_examples :
  Go.HasPrefix "https://a.example" "http" = true ∧
  Go.HasPrefix "a.example" "http" = false ∧
  Go.HasPrefix "htt" "http" = false.
Proof. done. Qed.

Example TrimPrefix_examples :
  Go.TrimPrefix "https://a.example" "https://" = "a.example" ∧
  Go.TrimPrefix "http://a.example" "https://" = "http://a.example" ∧
  Go.TrimPrefix "https://https://a.example" "https://" = "https://a.example".
Proof. done. Qed.

Example Atoi_examples :
  Go.Atoi "5" = Some 5%Z ∧ Go.Atoi "-3" = Some (-3)%Z ∧ Go.Atoi "+7" = Some 7%Z ∧
  Go.Atoi "abc" = None ∧ Go.Atoi "" = None ∧ Go.Atoi "-" = None ∧
  Go.Atoi " 5" = None ∧
  Go.Atoi "9223372036854775807" = Some Go.MaxInt ∧
  Go.Atoi "9223372036854775808" = None.
Proof. by vm_compute. Qed.

(* ===================================================================== *)
(** ** The scanner                                                        *)
(* ===================================================================== *)

Lemma string_app_cons c s t : String c s +:+ t = String c (s +:+ t).
Proof. done. Qed.

Lemma string_app_nil_l s : "" +:+ s = s.
Proof. done. Qed.

Lemma string_app_nil_r s : s +:+ "" = s.
Proof. induction s as [|c s IH]; [done|]. by rewrite string_app_cons, IH. Qed.

Lemma string_app_assoc s t u : (s +:+ t) +:+ u = s +:+ (t +:+ u).
Proof. induction s as [|c s IH]; [done|]. by rewrite !string_app_cons, IH. Qed.

Lemma string_app_length s t :
  String.length (s +:+ t) = String.length s + String.length t.
Proof. induction s as [|c s IH]; [done|]. rewrite string_app_cons. simpl. by rewrite IH. Qed.

Lemma too_long_snoc buf c line :
  too_long (buf +:+ String c line) = false →
  (bufio.MaxScanTokenSize <=? Z.of_nat (String.length buf) + 1)%Z = false ∧
  too_long ((buf +:+ String c "") +:+ line) = false.
Proof.
  unfold too_long. rewrite !Z.leb_gt, !string_app_length. simpl. lia.
Qed.

Lemma is_line_cons c line :
  is_line (String c line) = true → Ascii.eqb c "010" = false ∧ is_line line = true.
Proof. simpl. rewrite andb_true_iff, negb_true_iff. done. Qed.

Lemma scan_newline buf data :
  bufio.scan buf (String "010" data) = bufio.dropCR buf :: bufio.scan "" data.
Proof. done. Qed.

Lemma scan_byte buf c data :
  Ascii.eqb c "010" = false →
  (bufio.MaxScanTokenSize <=? Z.of_nat (String.length buf) + 1)%Z = false →
  bufio.scan buf (String c data) = bufio.scan (buf +:+ String c "") data.
Proof. intros Hc Hroom. cbn [bufio.scan]. by rewrite Hc, Hroom. Qed.

Lemma scan_full buf c data :
  Ascii.eqb c "010" = false →
  (bufio.MaxScanTokenSize <=? Z.of_nat (String.length buf) + 1)%Z = true →
  bufio.scan buf (String c data) = [].
Proof. intros Hc Hroom. cbn [bufio.scan]. by rewrite Hc, Hroom. Qed.

Lemma scan_line line buf tail :
  is_line line = true → too_long (buf +:+ line) = false →
  bufio.scan buf (line +:+ newline +:+ tail)
  = bufio.dropCR (buf +:+ line) :: bufio.scan "" tail.
Proof.
  revert buf. induction line as [|c line IH]; intros buf Hline Hlen.
  - by rewrite string_app_nil_r.
  - apply is_line_cons in Hline as [Hc Hline].
    apply too_long_snoc in Hlen as [Hroom Hlen].
    rewrite string_app_cons, scan_byte, IH by done.
    by rewrite string_app_assoc.
Qed.

Lemma scan_last line buf :
  is_line line = true → too_long (buf +:+ line) = false →
  bufio.scan buf line
  = match buf +:+ line with
    | EmptyString => []
    | _ => [bufio.dropCR (buf +:+ line)]
    end.
Proof.
  revert buf. induction line as [|c line IH]; intros buf Hline Hlen.
  - by rewrite string_app_nil_r.
  - apply is_line_cons in Hline as [Hc Hline].
    apply too_long_snoc in Hlen as [Hroom Hlen].
    rewrite scan_byte, IH by done.
    by rewrite string_app_assoc.
Qed.

Lemma scan_too_long long buf tail :
  is_line long = true → too_long buf = false → too_long (buf +:+ long) = true →
  bufio.scan buf (long +:+ tail) = [].
Proof.
  revert buf. induction long as [|c long IH]; intros buf Hline Hbuf Hlen.
  - rewrite string_app_nil_r in Hlen. congruence.
  - apply is_line_cons in Hline as [Hc Hline]. rewrite string_app_cons.
    destruct (bufio.MaxScanTokenSize <=? Z.of_nat (String.length buf) + 1)%Z eqn:Hroom.
    + by apply scan_full.
    + rewrite scan_byte by done. apply IH; [done| |].
      * unfold too_long. rewrite Z.leb_gt in *. rewrite string_app_length. simpl. lia.
      * by rewrite string_app_assoc.
Qed.

Lemma Scan_lines lines tail :
  Forall scannable lines →
  bufio.Scan (terminated lines +:+ tail) = (bufio.dropCR <$> lines) ++ bufio.Scan tail.
Proof.
  induction 1 as [|line lines [Hline Hlen] _ IH]; [done|].
  unfold bufio.Scan in *. simpl. rewrite !string_app_assoc.
  rewrite scan_line by done. simpl. by rewrite IH.
Qed.

Lemma Scan_last line :
  scannable line →
  bufio.Scan line = match line with EmptyString => [] | _ => [bufio.dropCR line] end.
Proof. intros [Hline Hlen]. by apply (scan_last line ""). Qed.

Lemma Scan_too_long long tail :
  is_line long = true → too_long long = true → bufio.Scan (long +:+ tail) = [].
Proof. intros Hline Hlen. by apply (scan_too_long long ""). Qed.

Lemma Scan_length content :
  length (bufio.Scan content) ≤ String.length content.
Proof.
  unfold bufio.Scan.
  enough (∀ buf, length (bufio.scan buf content)
                 ≤ String.length content + (if buf is EmptyString then 0 else 1)) as Hgen.
  { specialize (Hgen ""). simpl in Hgen. lia. }
  induction content as [|c content IH]; intros buf.
  - simpl. destruct buf; simpl; lia.
  - cbn [bufio.scan]. destruct (Ascii.eqb c "010").
    + specialize (IH ""). simpl in *. destruct buf; lia.
    + destruct (_ <=? _)%Z; [simpl; lia|].
      specialize (IH (buf +:+ String c "")).
      destruct buf; simpl in *; lia.
Qed.

(** The scanner delivers the lines of the file one by one, without their
    line ends, and nothing from the first line on that is too long. *)
Lemma Scan_file lines tail :
  Forall scannable lines →
  (tail = "" ∨ starts_too_long tail →
     bufio.Scan (terminated lines +:+ tail) = bufio.dropCR <$> lines) ∧
  (scannable tail → tail ≠ "" →
     bufio.Scan (terminated lines +:+ tail) = bufio.dropCR <$> (lines ++ [tail])).
Proof.
  intros Hlines. rewrite (Scan_lines _ _ Hlines). split.
  - intros [->|(long & rest & -> & Hline & Hlong)].
    + by rewrite app_nil_r.
    + by rewrite Scan_too_long, app_nil_r.
  - intros Htail Hne. rewrite (Scan_last _ Htail), fmap_app.
    by destruct tail.
Qed.

(** Every file is made of scannable lines, followed by nothing, by a line
    that is too long, or by a last scannable line without a newline. *)
Lemma file_lines content :
  ∃ lines tail,
    content = terminated lines +:+ tail ∧ Forall scannable lines ∧
    (tail = "" ∨ starts_too_long tail ∨ (scannable tail ∧ tail ≠ "")).
Proof.
  enough (∀ buf, scannable buf →
            ∃ lines tail,
              buf +:+ content = terminated lines +:+ tail ∧ Forall scannable lines ∧
              (tail = "" ∨ starts_too_long tail ∨ (scannable tail ∧ tail ≠ ""))) as Hgen.
  { apply (Hgen ""). by split. }
  induction content as [|c content IH]; intros buf Hbuf.
  - exists [], buf. rewrite string_app_nil_r. split; [done|]. split; [done|].
    destruct buf; [by left|]. right. right. by split.
  - destruct (Ascii.eqb c "010") eqn:Hc.
    + apply Ascii.eqb_eq in Hc as ->.
      destruct (IH "") as (lines & tail & Heq & Hlines & Htail); [by split|].
      exists (buf :: lines), tail. split; [|split; [by constructor|done]].
      simpl. rewrite string_app_assoc. f_equal.
      rewrite string_app_nil_l in Heq. unfold newline.
      by rewrite string_app_cons, string_app_nil_l, Heq.
    + destruct Hbuf as [Hline Hshort].
      assert (is_line (buf +:+ String c "") = true) as Hline'.
      { clear -Hline Hc. induction buf as [|d buf IH].
        - rewrite string_app_nil_l. simpl. by rewrite Hc.
        - apply is_line_cons in Hline as [Hd Hline]. rewrite string_app_cons.
          simpl. by rewrite Hd, IH. }
      destruct (too_long (buf +:+ String c "")) eqn:Hlong.
      * exists [], (buf +:+ String c content). split; [done|]. split; [done|].
        right. left. exists (buf +:+ String c ""), content.
        by rewrite string_app_assoc.
      * destruct (IH (buf +:+ String c "")) as (lines & tail & Heq & Hrest);
          [by split|].
        exists lines, tail. split; [|done].
        by rewrite string_app_assoc in Heq.
Qed.

Example dropCR_examples :
  bufio.dropCR ("a" +:+ String "013" "") = "a" ∧
  bufio.dropCR (String "013" "a") = String "013" "a" ∧
  bufio.dropCR "" = "".
Proof. done. Qed.


(** What [checkDomain] asks for. *)
Lemma checkDomain_requested Get sc domain :
  requested (checkDomain Get sc domain) = withScheme domain.
Proof. unfold checkDomain. destruct (Get _); [done|]. by destruct (recorded _). Qed.

Lemma withScheme_plain domain :
  Go.HasPrefix domain "http" = false → withScheme domain = "https://" +:+ domain.
Proof. unfold withScheme. by intros ->. Qed.

Lemma withScheme_http domain :
  Go.HasPrefix domain "http" = true → withScheme domain = domain.
Proof. unfold withScheme. by intros ->. Qed.

(* ===================================================================== *)
(** ** The invariant holds in every reachable configuration               *)
(* ===================================================================== *)

Lemma lookup_split {A} (ws : list A) i w :
  ws !! i = Some w →
  ∃ pre post, ws = pre ++ w :: post ∧ ∀ w', <[i:=w']> ws = pre ++ w' :: post.
Proof.
  intros Hi. exists (take i ws), (drop (S i) ws). split.
  - by rewrite take_drop_middle.
  - intros w'. apply insert_take_drop. by eapply lookup_lt_Some.
Qed.

Ltac split_workers :=
  match goal with
  | Hl : ?ws !! ?i = Some ?w |- _ =>
      let pre := fresh "pre" in let post := fresh "post" in
      let Hws := fresh "Hws" in let Hins := fresh "Hins" in
      destruct (lookup_split _ _ _ Hl) as (pre & post & Hws & Hins);
      rewrite ?Hins; clear Hins Hl; try subst ws
  end.

Lemma wrap_small z : (Go.MinInt ≤ z ≤ Go.MaxInt)%Z → Go.wrap z = z.
Proof.
  unfold Go.wrap, Go.MinInt, Go.MaxInt. intros Hz.
  rewrite Z.mod_small; lia.
Qed.

Section PipelineFacts.
Context {F : Type} `{Float64 F}.
Local Abbreviation Config := (Config F).

Lemma gather_replicate {A} (f : WorkerPc → list A) pc n :
  f pc = [] → gather f (replicate n pc) = [].
Proof. intros Hf. unfold gather. induction n; simpl; [done|]. by rewrite Hf. Qed.

Lemma Inv_start ds n : (Go.len ds ≤ Go.MaxInt)%Z → Inv ds n (start ds n).
Proof.
  intros Hfit. split; simpl; rewrite ?gather_replicate by done; try done.
  - apply length_replicate.
  - intros i domain code old [? _]%lookup_replicate. done.
  - intros i pc [-> _]%lookup_replicate. simpl. done.
  - intros r p [?|?]; done.
  - unfold Go.len. f_equal. clear. unfold gather. induction n; simpl; [done|]. by f_equal.
  - intros i [? _]%lookup_replicate. done.
Qed.

Lemma step_total ds n a c c' :
  Inv ds n c → exec a c = Next c' → totalDomains (sc c') = Go.len ds.
Proof.
  intros I Hexec. open_config c I. exec_cases Hexec; done.
Qed.

Lemma step_workers ds n a c c' :
  Inv ds n c → exec a c = Next c' → length (workers c') = n.
Proof.
  intros I Hexec. open_config c I. exec_cases Hexec; by rewrite ?length_insert.
Qed.

Lemma step_domains ds n a c c' :
  Inv ds n c → exec a c = Next c' →
  withScheme <$> ds ≡ₚ
      (request <$> wire c') ++
      (withScheme <$> (gather held (workers c') ++ buf (domains c') ++ unfed (feeder c'))).
Proof.
  intros I Hexec. open_config c I. exec_cases Hexec; try done.
  all: try split_workers; flatten.
  all: try (etrans; [eassumption|]; solve_Permutation).
Qed.


Lemma line_shown_line (r : Result) (p : F) : line_shown (line r p) = shown r.
Proof. unfold line, shown. by destruct (Error r). Qed.

Lemma step_results ds n a c c' :
  Inv ds n c → exec a c = Next c' →
  shown ∘ outcome <$> wire c' ≡ₚ
      (line_shown <$> stdout c') ++
      (shown <$> (unprinted (reporter c') ++ buf (results c') ++ gather unsent (workers c'))).
Proof.
  intros I Hexec. open_config c I. exec_cases Hexec; try done.
  all: try split_workers; flatten; use_recorded; rewrite ?line_shown_line.
  all: try (etrans; [eassumption|]; solve_Permutation).
  all: try (etrans; [apply Permutation_app_tail; eassumption|]; solve_Permutation).
Qed.


Lemma step_success ds n a c c' :
  Inv ds n c → exec a c = Next c' →
  (λ p, Go.TrimPrefix (request p) "https://") <$> filter qualifies (wire c') ≡ₚ
      successfulDomains (sc c') ++ gather unrecorded (workers c').
Proof.
  intros I Hexec. open_config c I. exec_cases Hexec; try done.
  all: use_snapshot.
  all: try split_workers; flatten; use_recorded.
  all: repeat case_decide; try done; simpl.
  all: try (etrans; [eassumption|]; solve_Permutation).
  all: try (etrans; [apply Permutation_app_tail; eassumption|]; solve_Permutation).
Qed.

Lemma step_snapshot ds n a c c' :
  Inv ds n c → exec a c = Next c' →
  ∀ i domain code old,
    workers c' !! i = Some (WWrite domain code old) → old = successfulDomains (sc c').
Proof.
  intros I Hexec. open_config c I. exec_cases Hexec; try done.
  all: lookup_cases; eauto.
  use_mu. naive_solver.
Qed.

Lemma step_mu_worker ds n a c c' :
  Inv ds n c → exec a c = Next c' →
  ∀ i pc, workers c' !! i = Some pc → (critical pc = true ↔ mu c' = Some (TWorker i)).
Proof.
  intros I Hexec. open_config c I. exec_cases Hexec; try done.
  all: lookup_cases; eauto.
  all: use_mu; try naive_solver.
Qed.

Lemma step_mu_valid ds n a c c' :
  Inv ds n c → exec a c = Next c' →
  ∀ i, mu c' = Some (TWorker i) → i < length (workers c').
Proof.
  intros I Hexec. open_config c I. exec_cases Hexec; try done.
  all: intros; rewrite ?length_insert; simplify_eq; eauto using lookup_lt_Some.
Qed.

Lemma step_mu_main ds n a c c' :
  Inv ds n c → exec a c = Next c' →
  reporting_critical (reporter c') = true ↔ mu c' = Some TMain.
Proof.
  intros I Hexec. open_config c I. exec_cases Hexec; try done.
  all: use_mu; try naive_solver.
Qed.

(** Every printed or held result comes from a request, and every request
    from an input domain. *)
Lemma Inv_count ds n c :
  Inv ds n c →
  (Go.len (stdout c) + Go.len (unprinted (reporter c)) ≤ Go.len ds)%Z.
Proof.
  intros I. pose proof (inv_domains _ _ _ I) as Hd.
  pose proof (inv_results _ _ _ I) as Hr.
  apply Permutation_length in Hd. apply Permutation_length in Hr.
  repeat (rewrite length_app in Hd || rewrite length_fmap in Hd).
  repeat (rewrite length_app in Hr || rewrite length_fmap in Hr).
  unfold Go.len. lia.
Qed.

Lemma step_processed ds n a c c' :
  Inv ds n c → exec a c = Next c' →
  processedDomains (sc c') = (Go.len (stdout c') + counted (reporter c'))%Z.
Proof.
  intros I Hexec. pose proof (Inv_count _ _ _ I) as Hc.
  open_config c I. exec_cases Hexec; try done.
  all: unfold Go.len in *; rewrite ?length_app in *; simpl in *; try lia.
  rewrite (inv_incr0 _ _ eq_refl). unfold Go.int_add.
  rewrite wrap_small; unfold Go.MinInt, Go.MaxInt in *; lia.
Qed.

Lemma step_incr ds n a c c' :
  Inv ds n c → exec a c = Next c' →
  ∀ r old, reporter c' = PIncWrite r old → old = processedDomains (sc c').
Proof.
  intros I Hexec. open_config c I. exec_cases Hexec; try done.
  all: intros; simplify_eq; eauto.
Qed.

Lemma step_pct ds n a c c' :
  Inv ds n c → exec a c = Next c' →
  ∀ r p, reporter c' = PUnlock r p ∨ reporter c' = PPrint r p → p = percentage (sc c').
Proof.
  intros I Hexec. open_config c I. exec_cases Hexec; try done.
  all: intros ?? [?|?]; simplify_eq; eauto.
Qed.

Lemma percentage_eq (s : StatusChecker) :
  percentage s = percent_of (totalDomains s) (processedDomains s).
Proof. done. Qed.

Lemma line_percentage_line (r : Result) (p : F) : line_percentage (line r p) = p.
Proof. unfold line. by destruct (Error r). Qed.

Lemma step_stdout ds n a c c' :
  Inv ds n c → exec a c = Next c' →
  line_percentage <$> stdout c' =
      (λ k, percent_of (Go.len ds) (Z.of_nat k)) <$> seq 1 (length (stdout c')).
Proof.
  intros I Hexec. open_config c I. exec_cases Hexec; try done.
  rewrite fmap_app, length_app, seq_app, fmap_app, <- inv_stdout0. f_equal.
  simpl. rewrite line_percentage_line.
  match goal with
  | |- [?p] = _ => rewrite (inv_pct0 _ p) by (by right)
  end.
  rewrite percentage_eq. unfold percent_of, Go.len. simpl.
  repeat f_equal. lia.
Qed.

Lemma step_feeder ds n a c c' :
  Inv ds n c → exec a c = Next c' →
  closed (domains c') = true ↔ feeder c' = FDone.
Proof.
  intros I Hexec. open_config c I. exec_cases Hexec; try done.
  all: try naive_solver.
Qed.

Lemma step_wg ds n a c c' :
  Inv ds n c → exec a c = Next c' →
  wg c' = Go.len (gather alive (workers c')).
Proof.
  intros I Hexec. open_config c I. exec_cases Hexec; try done.
  all: try split_workers; flatten; try done.
  all: unfold Go.len in *; repeat (rewrite length_app in * || simpl in * ); try lia.
Qed.

Lemma step_exited ds n a c c' :
  Inv ds n c → exec a c = Next c' →
  ∀ i, workers c' !! i = Some WExit → closed (domains c') = true ∧ buf (domains c') = [].
Proof.
  intros I Hexec. open_config c I. exec_cases Hexec; try done.
  all: lookup_cases; eauto.
  all: try naive_solver.
Qed.

Lemma step_closer ds n a c c' :
  Inv ds n c → exec a c = Next c' →
  closer c' ≠ CWait → wg c' = 0%Z.
Proof.
  intros I Hexec. open_config c I. exec_cases Hexec; try done.
  all: try naive_solver lia.
Qed.

Lemma step_closed ds n a c c' :
  Inv ds n c → exec a c = Next c' →
  closed (results c') = true ↔ closer c' = CDone.
Proof.
  intros I Hexec. open_config c I. exec_cases Hexec; try done.
  all: try naive_solver lia.
Qed.

Lemma step_done ds n a c c' :
  Inv ds n c → exec a c = Next c' →
  reporter c' = PDone → closed (results c') = true ∧ buf (results c') = [].
Proof.
  intros I Hexec. open_config c I. exec_cases Hexec; try done.
  all: try naive_solver lia.
Qed.


Lemma Inv_step ds n a c c' : Inv ds n c → exec a c = Next c' → Inv ds n c'.
Proof.
  intros I Hexec. split.
  - apply I.
  - eapply step_total; eauto.
  - eapply step_workers; eauto.
  - eapply step_domains; eauto.
  - eapply step_results; eauto.
  - eapply step_success; eauto.
  - eapply step_snapshot; eauto.
  - eapply step_mu_worker; eauto.
  - eapply step_mu_valid; eauto.
  - eapply step_mu_main; eauto.
  - eapply step_processed; eauto.
  - eapply step_incr; eauto.
  - eapply step_pct; eauto.
  - eapply step_stdout; eauto.
  - eapply step_feeder; eauto.
  - eapply step_wg; eauto.
  - eapply step_exited; eauto.
  - eapply step_closer; eauto.
  - eapply step_closed; eauto.
  - eapply step_done; eauto.
Qed.

Lemma Inv_reachable ds n c :
  (Go.len ds ≤ Go.MaxInt)%Z → reachable ds n c → Inv ds n c.
Proof.
  intros Hfit Hr. unfold reachable in Hr.
  revert c Hr. apply rtc_ind_r.
  - by apply Inv_start.
  - intros c c' _ [a Ha] I. eauto using Inv_step.
Qed.
Lemma alive_counted (ws : list WorkerPc) i pc :
  ws !! i = Some pc → pc ≠ WExit → (1 ≤ Go.len (gather alive ws))%Z.
Proof.
  intros Hl Hpc. split_workers. flatten. unfold Go.len.
  rewrite length_app. destruct pc; simpl; try done; lia.
Qed.

Lemma no_panic ds n a c msg : Inv ds n c → exec a c ≠ Panic msg.
Proof.
  intros I Hexec. open_config c I. exec_cases Hexec.
  all: try match goal with
       | Hl : _ !! _ = Some _ |- _ =>
           pose proof (alive_counted _ _ _ Hl ltac:(done))
       end.
  all: use_mu; try naive_solver lia.
Qed.


Lemma some_alive (ws : list WorkerPc) :
  Go.len (gather alive ws) ≠ 0%Z → ∃ i pc, ws !! i = Some pc ∧ pc ≠ WExit.
Proof.
  induction ws as [|w ws IH]; [done|]. intros Hlen.
  destruct w; try by (eexists 0, _).
  destruct (IH Hlen) as (i & pc & Hl & Hpc). by exists (S i), pc.
Qed.

Lemma worker_moves i net (c : Config) pc :
  workers c !! i = Some pc → worker_ready c pc → ∃ c', worker i net c = Next c'.
Proof.
  intros Hl Hr. unfold worker. rewrite Hl.
  destruct pc; simpl in Hr; try by eauto.
  - destruct (buf (domains c)) eqn:Hb; [|by eauto].
    destruct Hr as [?|[-> ?]]; [done|].
    destruct (Z.ltb_spec (wg c - 1) 0); [lia|by eauto].
  - destruct net as [err|resp]; [by eauto|].
    destruct (recorded _); by eauto.
  - rewrite Hr. by eauto.
  - destruct (mu c); [by eauto|done].
  - destruct Hr as [-> ->]. by eauto.
Qed.

Lemma reporter_moves (c : Config) : reporter_ready c → ∃ c', processResults c = Next c'.
Proof.
  unfold reporter_ready, processResults. intros Hr.
  destruct (reporter c); try by eauto.
  - destruct (buf (results c)); [|by eauto].
    destruct Hr as [?|Hc]; [done|]. rewrite Hc. by eauto.
  - rewrite Hr. by eauto.
  - destruct (mu c); [by eauto|done].
Qed.

Lemma empty_not_full {A} (ch : Chan A) : buf ch = [] → chan_full ch = false.
Proof. unfold chan_full. by intros ->. Qed.

(** While [processResults] has not returned, some goroutine can move: the
    program cannot deadlock. *)
Lemma progress ds n (c : Config) :
  Inv ds n c → reporter c ≠ PDone → ∃ a c', exec a c = Next c'.
Proof.
  intros I Hrep.
  (* whoever holds the mutex can move *)
  destruct (mu c) as [[i|]|] eqn:Hmu.
  { pose proof (inv_mu_valid _ _ _ I i Hmu) as Hi.
    apply lookup_lt_is_Some in Hi as [pc Hl].
    pose proof (inv_mu_worker _ _ _ I i pc Hl) as [_ Hcr]. specialize (Hcr Hmu).
    exists (Work i (http.Failed "")). apply worker_moves with pc; [done|].
    destruct pc; simpl in *; try done. by rewrite Hmu. }
  { pose proof Hmu as Hcr. apply (inv_mu_main _ _ _ I) in Hcr.
    exists Report. apply reporter_moves. unfold reporter_ready.
    destruct (reporter c); simpl in *; try done. by rewrite Hmu. }
  (* the mutex is free *)
  assert (reporter_ready c ∨
          reporter c = PRecv ∧ buf (results c) = [] ∧ closed (results c) = false)
    as [?|(Hrecv & Hbuf & Hopen)].
  { unfold reporter_ready. pose proof (inv_mu_main _ _ _ I) as Hm.
    clear I. rewrite Hmu in Hm.
    destruct (reporter c); simpl in *; try (by left); try (by destruct Hm as [Hm _]; specialize (Hm eq_refl)).
    destruct (buf (results c)), (closed (results c)); by eauto. }
  { exists Report. by apply reporter_moves. }
  (* the reporter waits on an empty, open [results] *)
  destruct (closer c) eqn:Hcl.
  2:{ exists Close. simpl. unfold close. rewrite Hcl, Hopen. by eauto. }
  2:{ apply (inv_closed _ _ _ I) in Hcl. congruence. }
  destruct (decide (wg c = 0%Z)) as [Hwg|Hwg].
  { exists Close. simpl. unfold close. rewrite Hcl, Hwg. by eauto. }
  (* some worker is still running *)
  pose proof Hwg as Halive. rewrite (inv_wg _ _ _ I) in Halive.
  apply some_alive in Halive as (i & pc & Hl & Hpc).
  assert (worker_ready c pc ∨
          pc = WRecv ∧ buf (domains c) = [] ∧ closed (domains c) = false)
    as [?|(-> & Hdbuf & Hdopen)].
  { pose proof (inv_mu_worker _ _ _ I i pc Hl) as Hm.
    pose proof (alive_counted _ _ _ Hl Hpc) as Hone.
    rewrite <- (inv_wg _ _ _ I) in Hone. clear I. rewrite Hmu in Hm.
    destruct pc; simpl in *; try (by left);
      try (by destruct Hm as [Hm _]; specialize (Hm eq_refl)).
    - destruct (buf (domains c)), (closed (domains c)); by eauto.
    - left. split; [done|]. by apply empty_not_full. }
  { exists (Work i (http.Failed "")). by apply worker_moves with pc. }
  (* that worker waits on an empty, open [domains]: the feeder can move *)
  exists Feed. simpl. unfold feed.
  destruct (feeder c) as [[|domain rest]|] eqn:Hfd.
  - rewrite Hdopen. by eauto.
  - rewrite Hdopen, empty_not_full by done. by eauto.
  - apply (inv_feeder _ _ _ I) in Hfd. congruence.
Qed.

Lemma step_fuel a (c c' : Config) : exec a c = Next c' → fuel c' < fuel c.
Proof.
  intros Hexec. destruct c as [[? ? ?] ? [? ?] [? ?] ? ? ? ? ? ? ?].
  unfold fuel. exec_cases Hexec.
  all: try split_workers.
  all: rewrite ?sum_list_with_app, ?length_app; simpl; try lia.
Qed.

Lemma run_fuel sched (c c' : Config) :
  run sched c = Some c' → length sched + fuel c' ≤ fuel c.
Proof.
  revert c. induction sched as [|a sched IH]; intros c Hrun; simpl in *.
  - simplify_eq. lia.
  - destruct (exec a c) as [| |c1] eqn:Hexec; try done.
    apply step_fuel in Hexec. apply IH in Hrun. lia.
Qed.
Lemma run_reachable ds n sched (c c' : Config) :
  reachable ds n c → run sched c = Some c' → reachable ds n c'.
Proof.
  revert c. induction sched as [|a sched IH]; intros c Hc Hrun; simpl in *.
  - by simplify_eq.
  - destruct (exec a c) as [| |c1] eqn:Hexec; try done.
    apply (IH c1); [|done]. eapply rtc_r; [exact Hc|]. by exists a.
Qed.

Lemma can_finish ds n (c : Config) :
  Inv ds n c → ∃ sched c', run sched c = Some c' ∧ finished c'.
Proof.
  remember (fuel c) as k eqn:Hk. revert c Hk.
  induction k as [k IH] using lt_wf_ind. intros c -> I.
  destruct (reporter c) eqn:Hrep.
  8:{ by exists [], c. }
  all: destruct (progress ds n c I) as (a & c1 & Hexec); [congruence|].
  all: destruct (IH (fuel c1) (step_fuel _ _ _ Hexec) c1 eq_refl) as (sched & c' & Hrun & Hfin);
    [by eapply Inv_step|].
  all: exists (a :: sched), c'; simpl; by rewrite Hexec.
Qed.

Lemma gather_all_exited {A} (f : WorkerPc → list A) (ws : list WorkerPc) :
  f WExit = [] → gather alive ws = [] → gather f ws = [].
Proof.
  intros Hf. unfold gather. induction ws as [|w ws IH]; simpl; [done|].
  destruct w; simpl; try done. intros Hws. rewrite Hf. by apply IH.
Qed.

Lemma exited_all (ws : list WorkerPc) i pc :
  gather alive ws = [] → ws !! i = Some pc → pc = WExit.
Proof.
  unfold gather. revert i. induction ws as [|w ws IH]; intros i Hws Hl; [done|].
  destruct w; simpl in Hws; try done.
  destruct i; simpl in Hl; [congruence|eauto].
Qed.

Lemma Inv_finished ds n (c : Config) :
  1 ≤ n → Inv ds n c → finished c → Final ds c.
Proof.
  intros Hn I Hfin. unfold finished in Hfin.
  destruct (inv_done _ _ _ I Hfin) as [Hrc Hrb].
  pose proof Hrc as Hcl. apply (inv_closed _ _ _ I) in Hcl.
  assert (gather alive (workers c) = []) as Hex.
  { apply length_zero_iff_nil. pose proof (inv_closer _ _ _ I) as Hw.
    rewrite Hcl, (inv_wg _ _ _ I) in Hw. unfold Go.len in Hw.
    specialize (Hw ltac:(done)). lia. }
  assert (workers c !! 0 = Some WExit) as H0.
  { destruct (workers c !! 0) as [pc|] eqn:Hl.
    - f_equal. by eapply exited_all.
    - apply lookup_ge_None in Hl. rewrite (inv_workers _ _ _ I) in Hl. lia. }
  destruct (inv_exited _ _ _ I 0 H0) as [Hdc Hdb].
  pose proof Hdc as Hfd. apply (inv_feeder _ _ _ I) in Hfd.
  pose proof (inv_domains _ _ _ I) as Hd.
  pose proof (inv_results _ _ _ I) as Hr.
  pose proof (inv_success _ _ _ I) as Hs.
  rewrite Hfd, Hdb, (gather_all_exited held) in Hd by done.
  rewrite Hfin, Hrb, (gather_all_exited unsent) in Hr by done.
  rewrite (gather_all_exited unrecorded) in Hs by done.
  simpl in *. rewrite app_nil_r in *.
  assert (length (stdout c) = length ds) as Hlen.
  { apply Permutation_length in Hd, Hr. rewrite !length_fmap in *. lia. }
  split; try done.
  - destruct (mu c) as [[i|]|] eqn:Hmu; [| |done].
    + pose proof (inv_mu_valid _ _ _ I i Hmu) as Hi.
      apply lookup_lt_is_Some in Hi as [pc Hl].
      pose proof (exited_all _ _ _ Hex Hl) as ->.
      apply (inv_mu_worker _ _ _ I) in Hl. simpl in Hl. naive_solver.
    + apply (inv_mu_main _ _ _ I) in Hmu. by rewrite Hfin in Hmu.
  - rewrite (inv_processed _ _ _ I), Hfin. unfold Go.len. simpl. lia.
  - apply I.
  - intros i pc. by apply exited_all.
Qed.

End PipelineFacts.

(* ===================================================================== *)
(** ** The start-up part of [main]                                        *)
(* ===================================================================== *)

Section MainFacts.
Context {F : Type} `{Float64 F}.
Variable TrimSpace : string → string.

Example readDomains_example :
  readDomains TrimSpaceASCII ["  good.example "; ""; "bad.example"; "weird.example"]
  = demo_domains.
Proof. by vm_compute. Qed.

Example askSpeed_example :
  askSpeed (F:=F) ["-3"; "abc"; "5"] = ([OInvalid; OInvalid], Some 5%Z).
Proof. by vm_compute. Qed.

Lemma readDomains_filter lines :
  readDomains TrimSpace lines = filter (λ domain, domain ≠ "") (TrimSpace <$> lines).
Proof.
  unfold readDomains.
  enough (∀ acc, fold_left
    (λ domainsList text,
       let domain := TrimSpace text in
       if String.eqb domain "" then domainsList else domainsList ++ [domain])
    lines acc = acc ++ filter (λ domain, domain ≠ "") (TrimSpace <$> lines)) as Hgen.
  { by rewrite Hgen. }
  induction lines as [|text lines IH]; intros acc; simpl.
  - by rewrite app_nil_r.
  - rewrite IH, filter_cons. destruct (String.eqb_spec (TrimSpace text) "") as [Heq|Hne].
    + by rewrite decide_False by naive_solver.
    + rewrite decide_True by done. by rewrite <- app_assoc.
Qed.

Lemma readDomains_none lines :
  (Go.len (readDomains TrimSpace lines) =? 0)%Z = true ↔ ∀ text, text ∈ lines → ¬ usable TrimSpace text.
Proof.
  rewrite readDomains_filter, Z.eqb_eq. unfold Go.len, usable.
  induction lines as [|text lines IH]; simpl.
  - split; [|done]. intros _ text ?%elem_of_nil. done.
  - rewrite filter_cons. destruct (decide (TrimSpace text ≠ "")) as [Hne|Heq].
    + simpl. split; [lia|]. intros Hall. destruct (Hall text); [left|done].
    + rewrite IH. split.
      * intros Hall t [->|?]%elem_of_cons; [done|by apply Hall].
      * intros Hall t Ht. apply Hall. by right.
Qed.

Lemma askSpeed_given inputs :
  (∃ input speed, input ∈ inputs ∧ Go.Atoi input = Some speed ∧ (0 < speed)%Z) ↔
  ∃ out speed, askSpeed (F:=F) inputs = (out, Some speed).
Proof.
  induction inputs as [|input inputs IH]; simpl.
  - split; [intros (? & ? & []%elem_of_nil & _)|intros (? & ? & ?); done].
  - destruct (Go.Atoi input) as [speed|] eqn:Ha.
    + destruct (Z.leb_spec speed 0) as [Hle|Hgt].
      * destruct (askSpeed inputs) as [out r]. split.
        -- intros (i & s & [->|Hin]%elem_of_cons & Hs & Hpos).
           ++ simplify_eq. lia.
           ++ destruct IH as [IH _]. destruct IH as (o & s' & Heq); [by eauto|].
              simplify_eq. by eauto.
        -- intros (o & s & Heq). simplify_eq.
           destruct IH as [_ IH]. destruct IH as (i & s' & ? & ? & ?); [by eauto|].
           exists i, s'. split; [by right|done].
      * split; [by eauto|]. intros _. exists input, speed. split; [by left|done].
    + destruct (askSpeed inputs) as [out r]. split.
      * intros (i & s & [->|Hin]%elem_of_cons & Hs & Hpos).
        -- congruence.
        -- destruct IH as [IH _]. destruct IH as (o & s' & Heq); [by eauto|].
           simplify_eq. by eauto.
      * intros (o & s & Heq). simplify_eq.
        destruct IH as [_ IH]. destruct IH as (i & s' & ? & ? & ?); [by eauto|].
        exists i, s'. split; [by right|done].
Qed.

Lemma askSpeed_positive inputs (out : list (Output F)) speed :
  askSpeed (F:=F) inputs = (out, Some speed) → (0 < speed)%Z.
Proof.
  revert out. induction inputs as [|input inputs IH]; intros out; simpl; [done|].
  destruct (Go.Atoi input) as [s|].
  - destruct (Z.leb_spec s 0).
    + destruct (askSpeed inputs) as [o r]. intros ?. simplify_eq. eauto.
    + intros ?. simplify_eq. done.
  - destruct (askSpeed inputs) as [o r]. intros ?. simplify_eq. eauto.
Qed.

(** [startup] ends the process exactly on a usage error. *)
Lemma startup_fatal env :
  (∃ out, startup (F:=F) TrimSpace env = Fatal out) ↔ usage_error TrimSpace env.
Proof.
  unfold startup, usage_error.
  destruct (args env) as [|path rest]; [naive_solver|].
  destruct (Open env path) as [err|content] eqn:Hopen; [naive_solver|].
  destruct (Go.len (readDomains TrimSpace (bufio.Scan content)) =? 0)%Z eqn:Hnone.
  - pose proof (proj1 (readDomains_none _) Hnone) as Hall. split; [|by eauto].
    intros _. right. right. by exists path, rest, content.
  - split.
    + destruct (askSpeed (stdin env)) as [out [speed|]]; by intros [? ?].
    + intros [?|[(? & ? & ? & ? & ?)|(? & ? & file & ? & ? & Hall)]];
        simplify_eq; [congruence|].
      assert (file = content) as -> by congruence.
      pose proof (proj2 (readDomains_none _) Hall). congruence.
Qed.

(** [startup] prints "No domains found" exactly when no token of the
    scanner is usable. *)
Lemma startup_none env path rest content :
  args env = path :: rest → Open env path = inr content →
  startup (F:=F) TrimSpace env = Fatal [ONoDomains] ↔
  ∀ text, text ∈ bufio.Scan content → TrimSpace text = "".
Proof.
  intros Ha Ho. unfold startup. rewrite Ha, Ho.
  pose proof (readDomains_none (bufio.Scan content)) as Hn.
  assert ((∀ text, text ∈ bufio.Scan content → ¬ usable TrimSpace text) ↔
          (∀ text, text ∈ bufio.Scan content → TrimSpace text = "")) as Hu.
  { unfold usable. split; intros Hall text Ht; specialize (Hall text Ht).
    - by destruct (decide (TrimSpace text = "")).
    - by intros ?. }
  rewrite Hu in Hn.
  destruct (Go.len (readDomains TrimSpace (bufio.Scan content)) =? 0)%Z.
  - split; [|done]. intros _. by apply Hn.
  - split; [by destruct (askSpeed (stdin env)) as [o [s|]]|].
    intros Hall. by apply Hn in Hall.
Qed.

Lemma is_line_app s t : is_line (s +:+ t) = is_line s && is_line t.
Proof.
  induction s as [|c s IH]; [done|].
  rewrite string_app_cons. simpl. by rewrite IH, andb_assoc.
Qed.

Lemma doubled_is_line n s : is_line s = true → is_line (doubled n s) = true.
Proof.
  revert s. induction n as [|n IH]; intros s Hs; [done|].
  simpl. apply IH. by rewrite is_line_app, Hs.
Qed.

Lemma doubled_length n s :
  Z.of_nat (String.length (doubled n s))
  = (2 ^ Z.of_nat n * Z.of_nat (String.length s))%Z.
Proof.
  revert s. induction n as [|n IH]; intros s.
  - simpl. lia.
  - cbn [doubled]. rewrite IH, string_app_length, Nat2Z.inj_succ, Z.pow_succ_r by lia.
    lia.
Qed.

Lemma long_line_too_long : is_line long_line = true ∧ too_long long_line = true.
Proof.
  unfold long_line. split; [by apply doubled_is_line|].
  unfold too_long. rewrite doubled_length. reflexivity.
Qed.

End MainFacts.

(** With the file [long_file] the scanner stops at the first line: [main]
    prints "No domains found" and exits with status 1, though the second
    line holds a domain and a speed is typed. *)
Example long_first_line :
  bufio.Scan long_file = [] ∧
  startup (F:=Qc) TrimSpaceASCII long_env = Fatal [ONoDomains] ∧
  main (F:=Qc) TrimSpaceASCII long_env 1 [ONoDomains].
Proof.
  assert (bufio.Scan long_file = []) as Hscan.
  { unfold long_file. apply Scan_too_long; apply long_line_too_long. }
  assert (startup (F:=Qc) TrimSpaceASCII long_env = Fatal [ONoDomains]) as Hs.
  { apply (startup_none TrimSpaceASCII long_env "hosts.txt" [] long_file);
      [reflexivity|reflexivity|].
    rewrite Hscan. intros text Ht. apply elem_of_nil in Ht. destruct Ht. }
  split; [exact Hscan|]. split; [exact Hs|]. apply main_fatal. exact Hs.
Qed.

(* ===================================================================== *)
(** ** The pipeline: results, success list, mutex, percentages            *)
(* ===================================================================== *)

Lemma demo_fits : (Go.len demo_domains ≤ Go.MaxInt)%Z.
Proof. vm_compute. discriminate. Qed.

Lemma demo_run : run demo_sched (start demo_domains 1) = Some demo_end.
Proof. vm_compute. reflexivity. Qed.

Lemma demo_reachable : reachable demo_domains 1 demo_end.
Proof.
  apply (run_reachable _ _ demo_sched (start demo_domains 1));
    [apply rtc_refl|exact demo_run].
Qed.

(** The run of the example: one request per domain, one line per result,
    the one domain answered 200 recorded. *)
Example demo_end_example :
  request <$> wire demo_end
    = ["https://good.example"; "https://bad.example"; "https://weird.example"] ∧
  line_shown <$> stdout demo_end
    = [("good.example", Some 200%Z); ("https://bad.example", None);
       ("https://weird.example", Some 501%Z)] ∧
  successfulDomains (sc demo_end) = ["good.example"] ∧
  processedDomains (sc demo_end) = 3%Z.
Proof. done. Qed.

Lemma demo_probing_reachable : reachable demo_domains 1 demo_probing.
Proof.
  apply (run_reachable _ _ [Feed; Work 0 (demo_reply 200)] (start demo_domains 1));
    [apply rtc_refl|]. by vm_compute.
Qed.

Section Claims.
Context {F : Type} `{Float64 F}.
Local Abbreviation Config := (Config F).

Lemma qualifies_spec (p : Probe) :
  qualifies p = true ↔
  ∃ resp, answer p = http.Ok resp ∧ (1 ≤ http.StatusCode resp ≤ 500)%Z.
Proof.
  unfold qualifies, recorded. destruct (answer p) as [err|resp].
  - split; [done|]. by intros (? & ? & ?).
  - rewrite andb_true_iff, !Z.leb_le. split.
    + intros [? ?]. by exists resp.
    + intros (resp' & ? & ?). by simplify_eq.
Qed.

Lemma reachable_Final ds n (c : Config) :
  1 ≤ n → (Go.len ds ≤ Go.MaxInt)%Z → reachable ds n c → finished c → Final ds c.
Proof. intros Hn Hfit Hr Hfin. eapply Inv_finished; eauto using Inv_reachable. Qed.

(** C1.  For a domain list [ds] of size M (a Go slice, so M fits an [int])
    and N >= 1 workers, in every configuration a run can reach:
    - while [processResults] has not returned some goroutine can move, no
      step panics, and at most [fuel c] steps remain, so every run goes on
      until [processResults] returns;
    - when it returns, [results] is closed and drained, [processedDomains]
      is M, M lines have been printed, and the results received are those
      of M requests, one per input domain. *)
Theorem aggregator_receives_every_result ds n (c : Config) :
  1 ≤ n → (Go.len ds ≤ Go.MaxInt)%Z → reachable ds n c →
  (¬ finished c → ∃ a c', exec a c = Next c') ∧
  (∀ a msg, exec a c ≠ Panic msg) ∧
  (∀ sched c', run sched c = Some c' → length sched ≤ fuel c) ∧
  (finished c →
     processedDomains (sc c) = Go.len ds ∧
     length (stdout c) = length ds ∧
     buf (results c) = [] ∧ closed (results c) = true ∧
     ∃ probes, request <$> probes ≡ₚ withScheme <$> ds ∧
               line_shown <$> stdout c ≡ₚ shown ∘ outcome <$> probes).
Proof.
  intros Hn Hfit Hr. pose proof (Inv_reachable _ _ _ Hfit Hr) as I.
  split; [|split; [|split]].
  - intros Hnf. by eapply progress.
  - intros a msg. by eapply no_panic.
  - intros sched c' Hrun. apply run_fuel in Hrun. lia.
  - intros Hfin. pose proof (Inv_finished _ _ _ Hn I Hfin) as Fin.
    split; [apply (fin_processed _ _ Fin)|]. split; [apply (fin_printed _ _ Fin)|].
    split; [apply (fin_drained _ _ Fin)|]. split; [apply (fin_drained _ _ Fin)|].
    exists (wire c). split; [apply (fin_requests _ _ Fin)|apply (fin_lines _ _ Fin)].
Qed.

(** C2.  A probe qualifies when it got a response with a status code in
    [1, 500].  At any time every entry of [successfulDomains] stems from a
    qualifying probe of its own; when [processResults] returns the requests
    are those of the input domains, [successfulDomains] holds one entry per
    qualifying probe and nothing else (as multisets, so a domain given twice
    and answered twice is there twice), and a probe answered with a status
    above 500 does not qualify although its result line was printed. *)
Theorem successful_domains_exact ds n (c : Config) :
  1 ≤ n → (Go.len ds ≤ Go.MaxInt)%Z → reachable ds n c →
  (∀ p, qualifies p = true ↔
        ∃ resp, answer p = http.Ok resp ∧ (1 ≤ http.StatusCode resp ≤ 500)%Z) ∧
  successfulDomains (sc c) ⊆+
    (λ p, Go.TrimPrefix (request p) "https://") <$> filter qualifies (wire c) ∧
  (finished c →
     request <$> wire c ≡ₚ withScheme <$> ds ∧
     successfulDomains (sc c) ≡ₚ
       (λ p, Go.TrimPrefix (request p) "https://") <$> filter qualifies (wire c) ∧
     ∀ p resp, p ∈ wire c → answer p = http.Ok resp →
       (500 < http.StatusCode resp)%Z →
       qualifies p = false ∧
       (request p, Some (http.StatusCode resp)) ∈ line_shown <$> stdout c).
Proof.
  intros Hn Hfit Hr. pose proof (Inv_reachable _ _ _ Hfit Hr) as I.
  split; [apply qualifies_spec|]. split.
  - rewrite (inv_success _ _ _ I). by apply submseteq_inserts_r.
  - intros Hfin. pose proof (Inv_finished _ _ _ Hn I Hfin) as Fin.
    split; [apply (fin_requests _ _ Fin)|]. split; [apply (fin_success _ _ Fin)|].
    intros p resp Hp Hanswer Hcode.
    assert (recorded (http.StatusCode resp) = false) as Hrec.
    { unfold recorded.
      destruct (Z.leb_spec (http.StatusCode resp) 500); [lia|]. by rewrite andb_false_r. }
    split.
    + unfold qualifies. by rewrite Hanswer.
    + rewrite (fin_lines _ _ Fin).
      replace (request p, Some (http.StatusCode resp)) with ((shown ∘ outcome) p).
      { by apply list_elem_of_fmap_2. }
      unfold shown, outcome. simpl. rewrite Hanswer. simpl. by rewrite Hrec.
Qed.

(** C3.  Under every interleaving of the N workers, the feeder, the closer
    and the reporter: a worker between its [Lock] and [Unlock] (where it
    appends to [successfulDomains]) is the holder of [sc.mu], and so is the
    reporter where it increments [processedDomains]; the slice a worker read
    and the counter the reporter read are still the current ones when the
    update is stored, so no update is lost; and when [processResults]
    returns the counter is M and the list is as long as the number of
    qualifying results. *)
Theorem mutex_guards_shared_state ds n (c : Config) :
  1 ≤ n → (Go.len ds ≤ Go.MaxInt)%Z → reachable ds n c →
  (∀ i pc, workers c !! i = Some pc → critical pc = true → mu c = Some (TWorker i)) ∧
  (reporting_critical (reporter c) = true → mu c = Some TMain) ∧
  (∀ i domain code old,
     workers c !! i = Some (WWrite domain code old) → old = successfulDomains (sc c)) ∧
  (∀ r old, reporter c = PIncWrite r old → old = processedDomains (sc c)) ∧
  (finished c →
     processedDomains (sc c) = Go.len ds ∧
     length (successfulDomains (sc c)) = length (filter qualifies (wire c))).
Proof.
  intros Hn Hfit Hr. pose proof (Inv_reachable _ _ _ Hfit Hr) as I.
  split; [|split; [|split; [|split]]].
  - intros i pc Hl Hcr. by apply (inv_mu_worker _ _ _ I i pc Hl).
  - apply (inv_mu_main _ _ _ I).
  - apply (inv_snapshot _ _ _ I).
  - apply (inv_incr _ _ _ I).
  - intros Hfin. pose proof (Inv_finished _ _ _ Hn I Hfin) as Fin.
    split; [apply (fin_processed _ _ Fin)|].
    pose proof (fin_success _ _ Fin) as Hs.
    apply Permutation_length in Hs. by rewrite length_fmap in Hs.
Qed.

Lemma percent_of_mono total a b :
  (0 < total)%Z → (a ≤ b)%Z → f64_le (percent_of total a) (percent_of total b).
Proof.
  intros Ht Hab. unfold percent_of.
  by apply f64_mul_mono, f64_div_mono, f64_of_int_mono.
Qed.

Lemma percent_of_all total : (0 < total)%Z → percent_of total total = f64_of_int 100.
Proof. intros Ht. unfold percent_of. by rewrite f64_div_self, f64_mul_one. Qed.

(** C4.  In every reachable configuration the percentages of the lines
    printed so far are non-decreasing in the order printed, and when
    [processResults] returns on a non-empty list the last one is 100. *)
Theorem percentage_nondecreasing ds n (c : Config) :
  1 ≤ n → (Go.len ds ≤ Go.MaxInt)%Z → reachable ds n c →
  (∀ i j p q, i ≤ j →
     (line_percentage <$> stdout c) !! i = Some p →
     (line_percentage <$> stdout c) !! j = Some q → f64_le p q) ∧
  (finished c → ds ≠ [] →
     last (line_percentage <$> stdout c) = Some (f64_of_int 100)).
Proof.
  intros Hn Hfit Hr. pose proof (Inv_reachable _ _ _ Hfit Hr) as I.
  pose proof (inv_stdout _ _ _ I) as Hout. split.
  - rewrite Hout. intros i j p q Hij Hi Hj.
    apply list_lookup_fmap_Some in Hi as (ki & -> & Hi).
    apply list_lookup_fmap_Some in Hj as (kj & -> & Hj).
    apply lookup_seq in Hi as [-> Hi], Hj as [-> Hj].
    apply percent_of_mono; [|lia].
    pose proof (Inv_count _ _ _ I). unfold Go.len in *. lia.
  - intros Hfin Hds. pose proof (Inv_finished _ _ _ Hn I Hfin) as Fin.
    rewrite Hout, (fin_printed _ _ Fin).
    destruct ds as [|d ds']; [done|].
    rewrite fmap_last. replace (length (d :: ds')) with (length ds' + 1) by (simpl; lia).
    rewrite seq_app. cbn [seq]. rewrite last_snoc. cbn [option_map fmap option_fmap].
    f_equal.
    replace (Z.of_nat (1 + length ds')) with (Go.len (d :: ds'))
      by (unfold Go.len; simpl; lia).
    apply percent_of_all. unfold Go.len. simpl. lia.
Qed.

Lemma withScheme_normalized domain : withScheme domain = normalized domain.
Proof.
  unfold withScheme, normalized. rewrite HasPrefix_prefix.
  by destruct (String.prefix _ _).
Qed.

(** C5.  A worker about to probe [domain] sends its request to
    ["https://" + domain] when [domain] does not start with ["http"] and to
    [domain] itself when it does; so the requests on the wire are normal
    forms of input domains, and when [processResults] returns they are the
    normal forms of all of them. *)
Theorem requests_are_normalized ds n (c : Config) :
  1 ≤ n → (Go.len ds ≤ Go.MaxInt)%Z → reachable ds n c →
  (∀ i domain net c',
     workers c !! i = Some (WGet domain) → exec (Work i net) c = Next c' →
     wire c' = wire c ++ [{| request := normalized domain; answer := net |}]) ∧
  request <$> wire c ⊆+ normalized <$> ds ∧
  (finished c → request <$> wire c ≡ₚ normalized <$> ds).
Proof.
  intros Hn Hfit Hr. pose proof (Inv_reachable _ _ _ Hfit Hr) as I.
  assert (withScheme <$> ds = normalized <$> ds) as Hnorm.
  { apply list_fmap_ext. intros ???. apply withScheme_normalized. }
  rewrite <- Hnorm. split; [|split].
  - intros i domain net c' Hl Hexec. simpl in Hexec. unfold worker in Hexec.
    rewrite Hl in Hexec. rewrite <- withScheme_normalized.
    destruct net as [err|resp]; [|destruct (recorded _)]; by simplify_eq.
  - rewrite (inv_domains _ _ _ I). by apply submseteq_inserts_r.
  - intros Hfin. apply (fin_requests _ _ (Inv_finished _ _ _ Hn I Hfin)).
Qed.

(** The steps of a worker from its [Get] to its send, run without
    interruption, do what [checkDomain] does. *)
Lemma worker_runs_checkDomain (c : Config) i domain net :
  workers c !! i = Some (WGet domain) → mu c = None →
  let out := checkDomain (λ _, net) (sc c) domain in
  ∃ k c', run (replicate k (Work i net)) c = Some c' ∧
    sc c' = checker out ∧
    workers c' = <[i := WSend (returned out)]> (workers c) ∧
    wire c' = wire c ++ [{| request := requested out; answer := net |}] ∧
    mu c' = None.
Proof.
  intros Hl Hmu. unfold checkDomain.
  pose proof (lookup_lt_Some _ _ _ Hl) as Hlt.
  destruct net as [err|resp].
  { exists 1. eexists. simpl. unfold worker. rewrite Hl. simpl.
    split; [done|]. simpl. by destruct c as [[]]. }
  destruct (recorded (http.StatusCode resp)) eqn:Hrec.
  2:{ exists 1. eexists. simpl. unfold worker. rewrite Hl, Hrec. simpl.
      split; [done|]. simpl. by destruct c as [[]]. }
  exists 5. eexists. simpl. unfold worker at 1. rewrite Hl, Hrec.
  solo_step Hlt. rewrite Hmu. do 3 solo_step Hlt.
  split; [done|]. simpl. by rewrite !list_insert_insert_eq.
Qed.

(** C8.  When the [Get] for [domain] fails with [err]: [checkDomain]
    returns a result with the error set and the status code at its zero
    value, and leaves the checker as it was; in the running program the
    worker's step sends the one request, appends nothing, and leaves the
    worker about to send that result; from there no goroutine's step panics,
    and the worker's send brings it back to its receive on [domains] with no
    second request and nothing appended. *)
Theorem probe_failure_is_local ds n (c : Config) i domain err :
  (Go.len ds ≤ Go.MaxInt)%Z → reachable ds n c →
  workers c !! i = Some (WGet domain) →
  let r := {| Domain := withScheme domain; StatusCode := 0; Error := Some err |} in
  retryAttempts = 0%Z ∧
  (∀ Get s, Get (withScheme domain) = http.Failed err →
     returned (checkDomain Get s domain) = r ∧ checker (checkDomain Get s domain) = s) ∧
  ∃ c1, exec (Work i (http.Failed err)) c = Next c1 ∧
    wire c1 = wire c ++ [{| request := withScheme domain; answer := http.Failed err |}] ∧
    successfulDomains (sc c1) = successfulDomains (sc c) ∧
    workers c1 = <[i := WSend r]> (workers c) ∧
    (∀ a msg, exec a c1 ≠ Panic msg) ∧
    (∀ net c2, exec (Work i net) c1 = Next c2 →
       workers c2 = <[i := WRecv]> (workers c1) ∧
       buf (results c2) = buf (results c1) ++ [r] ∧
       wire c2 = wire c1 ∧
       successfulDomains (sc c2) = successfulDomains (sc c1)).
Proof.
  intros Hfit Hr Hl r. split; [done|]. split.
  { intros Get s HGet. unfold checkDomain. by rewrite HGet. }
  pose proof (lookup_lt_Some _ _ _ Hl) as Hlt.
  assert (exec (Work i (http.Failed err)) c =
          Next (set_worker i (WSend r)
                  (sent {| request := withScheme domain; answer := http.Failed err |} c)))
    as Hexec.
  { simpl. unfold worker. by rewrite Hl. }
  eexists. split; [exact Hexec|]. split; [done|]. split; [done|]. split; [done|].
  split.
  - intros a msg. eapply no_panic, Inv_step; [|exact Hexec].
    by eapply Inv_reachable.
  - intros net c2. simpl. unfold worker. simpl.
    rewrite list_lookup_insert_eq by done.
    destruct (closed (results c)); [done|]. destruct (chan_full _); [done|].
    intros ?. simplify_eq. simpl. by rewrite list_insert_insert_eq.
Qed.

(** C10.  When [processResults] returns, the summary's failed count is
    [totalDomains - len(successfulDomains)], which is the number of probes
    that did not qualify; a probe answered with a status above 500 is one of
    them, and its line was printed by the status branch of [processResults],
    not by the failure branch. *)
Theorem failures_in_summary ds n (c : Config) :
  1 ≤ n → (Go.len ds ≤ Go.MaxInt)%Z → reachable ds n c → finished c →
  ∃ failed,
    summary (F:=F) (Go.len ds) (sc c) =
      [OSummary (Go.len ds) (Go.len (successfulDomains (sc c))) failed] ∧
    failed = (Go.len ds - Go.len (successfulDomains (sc c)))%Z ∧
    failed = Go.len (filter (λ p, qualifies p = false) (wire c)) ∧
    ∀ p resp, p ∈ wire c → answer p = http.Ok resp →
      (500 < http.StatusCode resp)%Z →
      p ∈ filter (λ p, qualifies p = false) (wire c) ∧
      ∃ pct, LStatus (request p) (http.StatusCode resp) pct ∈ stdout c.
Proof.
  intros Hn Hfit Hr Hfin. pose proof (reachable_Final _ _ _ Hn Hfit Hr Hfin) as Fin.
  assert (length (wire c) = length ds) as Hwire.
  { pose proof (fin_requests _ _ Fin) as Hq.
    apply Permutation_length in Hq. by rewrite !length_fmap in Hq. }
  assert (length (successfulDomains (sc c)) = length (filter qualifies (wire c))) as Hsucc.
  { pose proof (fin_success _ _ Fin) as Hs.
    apply Permutation_length in Hs. by rewrite length_fmap in Hs. }
  assert (length (filter qualifies (wire c))
          + length (filter (λ p, qualifies p = false) (wire c)) = length (wire c)) as Hsplit.
  { clear. induction (wire c) as [|p ps IH]; [done|].
    rewrite !filter_cons.
    destruct (qualifies p) eqn:Hq; repeat case_decide; simpl in *; try done; lia. }
  eexists. split; [reflexivity|]. split; [|split].
  - unfold Go.int_sub. apply wrap_small. unfold Go.len, Go.MinInt, Go.MaxInt in *. lia.
  - unfold Go.int_sub. rewrite wrap_small; unfold Go.len, Go.MinInt, Go.MaxInt in *; lia.
  - intros p resp Hp Hanswer Hcode.
    pose proof (fin_lines _ _ Fin) as Hlines.
    assert (recorded (http.StatusCode resp) = false) as Hrec.
    { unfold recorded.
      destruct (Z.leb_spec (http.StatusCode resp) 500); [lia|]. by rewrite andb_false_r. }
    assert (qualifies p = false) as Hq by (unfold qualifies; by rewrite Hanswer).
    split; [by apply list_elem_of_filter|].
    assert ((shown ∘ outcome) p ∈ line_shown <$> stdout c) as Hline.
    { rewrite Hlines. by apply list_elem_of_fmap_2. }
    unfold shown, outcome in Hline. simpl in Hline. rewrite Hanswer in Hline.
    simpl in Hline. rewrite Hrec in Hline.
    apply list_elem_of_fmap in Hline as (l & Hshown & Hl).
    destruct l as [d pct|d code pct]; simpl in Hshown; simplify_eq.
    by exists pct.
Qed.

End Claims.

(* ===================================================================== *)
(** ** [checkDomain]: the recorded domain and the response body           *)
(* ===================================================================== *)

(** C6, as stated, fails.  A domain given as ["http://a.example"] and
    answered 200 is recorded, and both the result and the entry appended to
    [successfulDomains] still carry the scheme. *)
Lemma scheme_kept_for_http :
  let out := checkDomain (λ _, demo_reply 200) (NewStatusChecker 1) "http://a.example" in
  recorded 200 = true ∧
  carries_scheme (Domain (returned out)) ∧
  successfulDomains (checker out) = [Domain (returned out)].
Proof.
  split; [done|]. split; [|done]. by exists "http", "a.example".
Qed.

(** C6, amended.  For a response with a status code in [1, 500], the
    result carries the requested URL with one leading ["https://"] removed,
    and that same string is what is appended to [successfulDomains]: a
    domain given without ["http"] in front comes back as given, a domain
    given with ["https://"] comes back without it, and a domain that starts
    with ["http"] but not with ["https://"] comes back unchanged. *)
Theorem recorded_domain_trimmed Get sc domain resp :
  Get (withScheme domain) = http.Ok resp →
  recorded (http.StatusCode resp) = true →
  let out := checkDomain Get sc domain in
  Domain (returned out) = Go.TrimPrefix (withScheme domain) "https://" ∧
  successfulDomains (checker out) = successfulDomains sc ++ [Domain (returned out)] ∧
  (Go.HasPrefix domain "http" = false → Domain (returned out) = domain) ∧
  (∀ rest, domain = "https://" +:+ rest → Domain (returned out) = rest) ∧
  (Go.HasPrefix domain "http" = true → Go.HasPrefix domain "https://" = false →
   Domain (returned out) = domain).
Proof.
  intros HGet Hrec. unfold checkDomain. rewrite HGet, Hrec. simpl.
  split; [done|]. split; [done|]. split; [|split].
  - intros Hplain. rewrite withScheme_plain by done. apply (TrimPrefix_app "https://").
  - intros rest ->. rewrite withScheme_http; [apply (TrimPrefix_app "https://")|].
    apply HasPrefix_app. by exists ("s://" +:+ rest).
  - intros Hhttp Hnot. rewrite withScheme_http by done. by apply TrimPrefix_other.
Qed.

Lemma recorded_domain_trimmed_witness :
  Domain (returned (checkDomain (λ _, demo_reply 200) (NewStatusChecker 1)
                                "https://a.example")) = "a.example".
Proof.
  pose proof (recorded_domain_trimmed (λ _, demo_reply 200) (NewStatusChecker 1)
                "https://a.example" _ eq_refl eq_refl) as (_ & _ & _ & Hs & _).
  exact (Hs "a.example" eq_refl).
Defined.

(** C7, as stated, fails.  After [checkDomain] a response body that held
    ["<html>"] still holds it: nothing was read. *)
Lemma body_left_unread :
  ∃ resp,
    response (checkDomain (λ _, demo_reply 200) (NewStatusChecker 1) "a.example")
      = Some resp ∧
    http.unread (http.Body resp) = "<html>" ∧ ¬ drained (http.Body resp).
Proof. eexists. split; [reflexivity|]. split; [reflexivity|]. discriminate. Qed.

(** C7, amended.  For every probe that receives a response, [checkDomain]
    closes the response body before it returns and reads nothing from it. *)
Theorem body_closed_unread Get sc domain resp :
  Get (withScheme domain) = http.Ok resp →
  response (checkDomain Get sc domain)
  = Some {| http.StatusCode := http.StatusCode resp;
            http.Body := {| http.unread := http.unread (http.Body resp);
                            http.isClosed := true |} |}.
Proof.
  intros HGet. unfold checkDomain. rewrite HGet. by destruct (recorded _).
Qed.

Lemma body_closed_unread_witness :
  response (checkDomain (λ _, demo_reply 200) (NewStatusChecker 1) "a.example")
  = Some {| http.StatusCode := 200;
            http.Body := {| http.unread := "<html>"; http.isClosed := true |} |}.
Proof.
  exact (body_closed_unread (λ _, demo_reply 200) (NewStatusChecker 1) "a.example" _ eq_refl).
Defined.

(* ===================================================================== *)
(** ** The exit status of [main]                                          *)
(* ===================================================================== *)

Section ExitStatus.
Context {F : Type} `{Float64 F}.
Local Abbreviation Config := (Config F).
Variable TrimSpace : string → string.

Lemma readDomains_length lines :
  length (readDomains TrimSpace lines) ≤ length lines.
Proof.
  rewrite readDomains_filter. etrans; [apply length_filter|]. by rewrite length_fmap.
Qed.

Lemma startup_Ready env ds speed out :
  startup (F:=F) TrimSpace env = Ready ds speed out →
  file_fits env → ds ≠ [] ∧ (Go.len ds ≤ Go.MaxInt)%Z ∧ 1 ≤ Z.to_nat speed.
Proof.
  unfold startup, file_fits. intros Hs Hfit.
  destruct (args env) as [|path rest]; [done|].
  destruct (Open env path) as [err|content] eqn:Hopen; [done|].
  destruct (Go.len (readDomains TrimSpace (bufio.Scan content)) =? 0)%Z eqn:Hnone; [done|].
  destruct (askSpeed (stdin env)) as [o [s|]] eqn:Hask; [|done].
  simplify_eq. apply askSpeed_positive in Hask. apply Z.eqb_neq in Hnone.
  split; [by intros Hnil; rewrite Hnil in Hnone|]. split; [|lia].
  pose proof (readDomains_length (bufio.Scan content)).
  pose proof (Scan_length content). specialize (Hfit _ _ Hopen).
  unfold Go.len in *. lia.
Qed.


Lemma startup_Ready_out env ds speed out :
  startup (F:=F) TrimSpace env = Ready ds speed out →
  Forall (λ o, is_result o = false) out.
Proof.
  unfold startup. intros Hs.
  destruct (args env) as [|path rest]; [done|].
  destruct (Open env path) as [err|content]; [done|].
  destruct (Go.len (readDomains TrimSpace (bufio.Scan content)) =? 0)%Z; [done|].
  destruct (askSpeed (stdin env)) as [o [s|]] eqn:Hask; [|done].
  simplify_eq. do 2 (constructor; [done|]).
  clear -Hask. revert o Hask.
  induction (stdin env) as [|input inputs IH]; intros o Hask; simpl in Hask; [done|].
  destruct (Go.Atoi input) as [z|].
  - destruct (z <=? 0)%Z.
    + destruct (askSpeed inputs) as [o' r]. simplify_eq. constructor; [done|]. by apply IH.
    + simplify_eq. constructor.
  - destruct (askSpeed inputs) as [o' r]. simplify_eq. constructor; [done|]. by apply IH.
Qed.





End ExitStatus.


Lemma demo_file_fits inputs : file_fits (demo_env inputs).
Proof. intros path content [= <-]. vm_compute. discriminate. Qed.


(* ===================================================================== *)
(** ** The theorems on the example run                                    *)
(* ===================================================================== *)

Lemma aggregator_receives_every_result_witness :
  processedDomains (sc demo_end) = 3%Z ∧ length (stdout demo_end) = 3.
Proof.
  destruct (aggregator_receives_every_result demo_domains 1 demo_end
              ltac:(lia) demo_fits demo_reachable) as (_ & _ & _ & Hfin).
  destruct (Hfin eq_refl) as (Hp & Hl & _). split; [exact Hp|exact Hl].
Defined.

Lemma successful_domains_exact_witness :
  successfulDomains (sc demo_end) ≡ₚ ["good.example"].
Proof.
  destruct (successful_domains_exact demo_domains 1 demo_end
              ltac:(lia) demo_fits demo_reachable) as (_ & _ & Hfin).
  destruct (Hfin eq_refl) as (_ & Hs & _). exact Hs.
Defined.

Lemma mutex_guards_shared_state_witness :
  processedDomains (sc demo_end) = 3%Z ∧
  length (successfulDomains (sc demo_end)) = 1.
Proof.
  destruct (mutex_guards_shared_state demo_domains 1 demo_end
              ltac:(lia) demo_fits demo_reachable) as (_ & _ & _ & _ & Hfin).
  exact (Hfin eq_refl).
Defined.

Lemma percentage_nondecreasing_witness :
  last (line_percentage <$> stdout demo_end) = Some (Qc_of_int 100).
Proof.
  destruct (percentage_nondecreasing demo_domains 1 demo_end
              ltac:(lia) demo_fits demo_reachable) as (_ & Hlast).
  exact (Hlast eq_refl ltac:(discriminate)).
Defined.

Lemma requests_are_normalized_witness :
  request <$> wire demo_end ≡ₚ
    ["https://good.example"; "https://bad.example"; "https://weird.example"].
Proof.
  destruct (requests_are_normalized demo_domains 1 demo_end
              ltac:(lia) demo_fits demo_reachable) as (_ & _ & Hfin).
  exact (Hfin eq_refl).
Defined.

Lemma probe_failure_is_local_witness :
  ∃ c1, exec (Work 0 (http.Failed "timeout")) demo_probing = Next c1 ∧
        successfulDomains (sc c1) = [] ∧
        workers c1 = [WSend {| Domain := "https://good.example"; StatusCode := 0;
                               Error := Some "timeout" |}].
Proof.
  destruct (probe_failure_is_local demo_domains 1 demo_probing 0 "good.example" "timeout"
              demo_fits demo_probing_reachable eq_refl)
    as (_ & _ & c1 & Hexec & _ & Hs & Hw & _).
  exists c1. split; [exact Hexec|]. split; [exact Hs|exact Hw].
Defined.

Lemma failures_in_summary_witness :
  summary (F:=Qc) 3 (sc demo_end) = [OSummary 3 1 2].
Proof.
  destruct (failures_in_summary demo_domains 1 demo_end
              ltac:(lia) demo_fits demo_reachable eq_refl) as (failed & Hs & -> & _).
  exact Hs.
Defined.

(* ===================================================================== *)
(** ** More on the pipeline: bounds, order, the mutex, shutdown           *)
(* ===================================================================== *)

Lemma demo_locked_reachable : reachable demo_domains 1 demo_locked.
Proof.
  apply (run_reachable _ _ [Feed; Work 0 (demo_reply 200); Work 0 (demo_reply 200);
                            Work 0 (demo_reply 200)] (start demo_domains 1));
    [apply rtc_refl|]. by vm_compute.
Qed.

Section PipelineMore.
Context {F : Type} `{Float64 F}.
Local Abbreviation Config := (Config F).

Lemma not_full_length {A} (ch : Chan A) :
  chan_full ch = false → (Go.len (buf ch) < bufferSize)%Z.
Proof. unfold chan_full. by intros ?%Z.leb_gt. Qed.

(** X1.  Neither channel ever holds more than [bufferSize] elements: the
    feeder and the workers wait while their channel is full. *)
Theorem channels_bounded ds n (c : Config) :
  reachable ds n c →
  (Go.len (buf (domains c)) ≤ bufferSize)%Z ∧ (Go.len (buf (results c)) ≤ bufferSize)%Z.
Proof.
  unfold reachable. revert c. apply rtc_ind_r.
  - by vm_compute.
  - intros c c' _ [a Hexec] [Hd Hr].
    destruct c as [[? ? ?] ? [dbuf ?] [rbuf ?] ? ? ? ? ? ? ?]. simpl in *.
    exec_cases Hexec; try done.
    all: try match goal with
         | Hf : chan_full _ = false |- _ => apply not_full_length in Hf; simpl in Hf
         end.
    all: unfold Go.len, bufferSize in *; rewrite ?length_app in *; simpl in *; split; lia.
Qed.

Lemma fed_in_order ds n (c : Config) :
  reachable ds n c → ∃ taken, ds = taken ++ buf (domains c) ++ unfed (feeder c).
Proof.
  unfold reachable. revert c. apply rtc_ind_r.
  - exists []. simpl. done.
  - intros c c' _ [a Hexec] [taken Ht].
    destruct c as [[? ? ?] ? [dbuf ?] [rbuf ?] ? ? ? ? ? ? ?]. simpl in *.
    exec_cases Hexec; try (by exists taken).
    + exists taken. by rewrite <- app_assoc.
    + match goal with
      | |- ∃ _, _ ++ ?d :: _ = _ => exists (taken ++ [d])
      end.
      by rewrite <- app_assoc.
Qed.

(** X2.  The feeder sends the domains in the order of the list: what is
    in [domains], followed by what the feeder still has, is always the rest
    of the input list, and what the workers have taken off the channel is
    the part in front of it, each of these either requested already or held
    by a worker. *)
Theorem workers_take_a_prefix ds n (c : Config) :
  (Go.len ds ≤ Go.MaxInt)%Z → reachable ds n c →
  ∃ taken,
    ds = taken ++ buf (domains c) ++ unfed (feeder c) ∧
    withScheme <$> taken ≡ₚ
      (request <$> wire c) ++ (withScheme <$> gather held (workers c)).
Proof.
  intros Hfit Hr. destruct (fed_in_order _ _ _ Hr) as [taken Ht].
  exists taken. split; [done|].
  pose proof (inv_domains _ _ _ (Inv_reachable _ _ _ Hfit Hr)) as Hd.
  rewrite Ht in Hd at 1. rewrite !fmap_app in Hd.
  apply (Permutation_app_inv_r ((withScheme <$> buf (domains c)) ++
                                (withScheme <$> unfed (feeder c)))).
  etrans; [exact Hd|]. solve_Permutation.
Qed.

Lemma single_worker {A} (pre post : list A) w :
  length (pre ++ w :: post) = 1 → pre = [] ∧ post = [].
Proof.
  rewrite length_app. simpl. intros Hl.
  destruct pre, post; simpl in *; try done; lia.
Qed.

Lemma InOrder_step ds a (c c' : Config) :
  Inv ds 1 c → InOrder ds c → exec a c = Next c' → InOrder ds c'.
Proof.
  intros I [Hd Hr Hs] Hexec.
  pose proof (inv_snapshot _ _ _ I) as Hsnap.
  pose proof (inv_workers _ _ _ I) as Hlen. clear I.
  destruct c as [[? ? ?] ? [? ?] [? ?] ? ? ? ? ? ? ?]. simpl in *.
  exec_cases Hexec.
  all: use_snapshot.
  all: split; simpl.
  all: try split_workers.
  all: try match goal with
       | Hl : length (_ ++ _ :: _) = 1 |- _ =>
           apply single_worker in Hl as [-> ->]
       end.
  all: flatten; use_recorded; rewrite ?line_shown_line.
  all: repeat case_decide; try done; simpl.
  all: rewrite ?app_nil_r in *; simpl in *.
  all: try (rewrite ?Hd, ?Hr, ?Hs; simpl; rewrite <- ?app_assoc; simpl; done).
Qed.

Lemma InOrder_reachable ds (c : Config) :
  (Go.len ds ≤ Go.MaxInt)%Z → reachable ds 1 c → InOrder ds c.
Proof.
  intros Hfit. unfold reachable. revert c. apply rtc_ind_r.
  - split; simpl; by rewrite ?app_nil_r.
  - intros c c' Hc [a Hexec] IH. eapply InOrder_step; [|exact IH|exact Hexec].
    by apply Inv_reachable.
Qed.

Lemma prefix_same_length {A} (l1 l2 : list A) :
  l1 `prefix_of` l2 → length l1 = length l2 → l1 = l2.
Proof.
  intros [k ->] Hlen. rewrite length_app in Hlen.
  destruct k; [by rewrite app_nil_r|simpl in Hlen; lia].
Qed.

(** X3.  With one worker everything keeps the order of the input: at any
    time the requests sent are the first domains of the list in order, the
    lines printed are the results of the first requests in order, and
    [successfulDomains] lists the first qualifying requests in order; when
    [processResults] returns, all three are complete. *)
Theorem single_worker_keeps_order ds (c : Config) :
  (Go.len ds ≤ Go.MaxInt)%Z → reachable ds 1 c →
  request <$> wire c `prefix_of` withScheme <$> ds ∧
  line_shown <$> stdout c `prefix_of` shown ∘ outcome <$> wire c ∧
  successfulDomains (sc c) `prefix_of`
    (λ p, Go.TrimPrefix (request p) "https://") <$> filter qualifies (wire c) ∧
  (finished c →
     request <$> wire c = withScheme <$> ds ∧
     line_shown <$> stdout c = shown ∘ outcome <$> wire c ∧
     successfulDomains (sc c) =
       (λ p, Go.TrimPrefix (request p) "https://") <$> filter qualifies (wire c)).
Proof.
  intros Hfit Hr. destruct (InOrder_reachable _ _ Hfit Hr) as [Hd Hl Hs].
  assert (request <$> wire c `prefix_of` withScheme <$> ds) as Pd
    by (rewrite Hd; apply prefix_app_r; done).
  assert (line_shown <$> stdout c `prefix_of` shown ∘ outcome <$> wire c) as Pl
    by (rewrite Hl; apply prefix_app_r; done).
  assert (successfulDomains (sc c) `prefix_of`
    (λ p, Go.TrimPrefix (request p) "https://") <$> filter qualifies (wire c)) as Ps
    by (rewrite Hs; apply prefix_app_r; done).
  split; [done|]. split; [done|]. split; [done|].
  intros Hfin.
  pose proof (Inv_finished ds 1 c ltac:(lia) (Inv_reachable _ _ _ Hfit Hr) Hfin) as Fin.
  split; [|split]; apply prefix_same_length; try done.
  - apply Permutation_length, (fin_requests _ _ Fin).
  - apply Permutation_length, (fin_lines _ _ Fin).
  - apply Permutation_length, (fin_success _ _ Fin).
Qed.

(** X4.  No step takes anything back: a step leaves [successfulDomains],
    the requests sent and the lines printed as they were or adds at the end,
    leaves [totalDomains] alone, and leaves [processedDomains] alone or adds
    one to it. *)
Theorem shared_state_grows ds n (c c' : Config) :
  (Go.len ds ≤ Go.MaxInt)%Z → reachable ds n c → step c c' →
  successfulDomains (sc c) `prefix_of` successfulDomains (sc c') ∧
  (processedDomains (sc c) ≤ processedDomains (sc c') ≤ processedDomains (sc c) + 1)%Z ∧
  totalDomains (sc c') = totalDomains (sc c) ∧
  wire c `prefix_of` wire c' ∧
  stdout c `prefix_of` stdout c'.
Proof.
  intros Hfit Hr [a Hexec]. pose proof (Inv_reachable _ _ _ Hfit Hr) as I.
  pose proof (Inv_count _ _ _ I) as Hc.
  pose proof (inv_incr _ _ _ I) as Hincr.
  pose proof (inv_snapshot _ _ _ I) as Hsnap.
  pose proof (inv_processed _ _ _ I) as Hproc. clear I.
  destruct c as [[? ? ?] ? [? ?] [? ?] ? ? ? ? ? ? ?]. simpl in *.
  exec_cases Hexec.
  all: use_snapshot.
  all: repeat split; try done; try lia; try (by apply prefix_app_r).
  all: rewrite (Hincr _ _ eq_refl); unfold Go.int_add;
    rewrite wrap_small; unfold Go.len, Go.MinInt, Go.MaxInt in *; simpl in *; lia.
Qed.

(** X5.  Whoever holds [sc.mu] can take its next step: between [Lock] and
    [Unlock] neither a worker nor [processResults] waits for anything. *)
Theorem lock_holder_can_move ds n (c : Config) :
  (Go.len ds ≤ Go.MaxInt)%Z → reachable ds n c →
  (∀ i net, mu c = Some (TWorker i) → ∃ c', exec (Work i net) c = Next c') ∧
  (mu c = Some TMain → ∃ c', exec Report c = Next c').
Proof.
  intros Hfit Hr. pose proof (Inv_reachable _ _ _ Hfit Hr) as I. split.
  - intros i net Hmu. pose proof (inv_mu_valid _ _ _ I i Hmu) as Hi.
    apply lookup_lt_is_Some in Hi as [pc Hl].
    pose proof (inv_mu_worker _ _ _ I i pc Hl) as [_ Hcr]. specialize (Hcr Hmu).
    apply worker_moves with pc; [done|].
    destruct pc; simpl in *; try done. by rewrite Hmu.
  - intros Hmu. pose proof Hmu as Hcr. apply (inv_mu_main _ _ _ I) in Hcr.
    apply reporter_moves. unfold reporter_ready.
    destruct (reporter c); simpl in *; try done. by rewrite Hmu.
Qed.

Lemma live_at_most (ws : list WorkerPc) : length (gather alive ws) ≤ length ws.
Proof.
  unfold gather. induction ws as [|w ws IH]; [done|].
  rewrite bind_cons, length_app. destruct w; simpl; lia.
Qed.

(** X6.  The order of the shutdown.  [domains] is closed only once every
    domain has been sent; a worker has exited only if [domains] is closed
    and empty; [wg] counts the workers that have not exited, between 0 and
    N; and [results] is closed only when [wg] is 0 and every worker has
    exited. *)
Theorem shutdown_in_order ds n (c : Config) :
  (Go.len ds ≤ Go.MaxInt)%Z → reachable ds n c →
  (closed (domains c) = true → ∃ taken, ds = taken ++ buf (domains c)) ∧
  (∀ i, workers c !! i = Some WExit →
     closed (domains c) = true ∧ buf (domains c) = []) ∧
  (wg c = Go.len (gather alive (workers c)) ∧ (0 ≤ wg c ≤ Z.of_nat n)%Z) ∧
  (closed (results c) = true →
     wg c = 0%Z ∧ ∀ i pc, workers c !! i = Some pc → pc = WExit).
Proof.
  intros Hfit Hr. pose proof (Inv_reachable _ _ _ Hfit Hr) as I.
  split; [|split; [|split]].
  - intros Hcl. destruct (fed_in_order _ _ _ Hr) as [taken Ht].
    apply (inv_feeder _ _ _ I) in Hcl. rewrite Hcl in Ht. simpl in Ht.
    rewrite app_nil_r in Ht. by exists taken.
  - apply (inv_exited _ _ _ I).
  - split; [apply (inv_wg _ _ _ I)|]. rewrite (inv_wg _ _ _ I).
    pose proof (live_at_most (workers c)) as Hl.
    rewrite (inv_workers _ _ _ I) in Hl. unfold Go.len. lia.
  - intros Hcl. apply (inv_closed _ _ _ I) in Hcl.
    assert (wg c = 0%Z) as Hwg by (apply (inv_closer _ _ _ I); by rewrite Hcl).
    split; [done|]. intros i pc Hl. eapply exited_all; [|exact Hl].
    apply length_zero_iff_nil. rewrite (inv_wg _ _ _ I) in Hwg.
    unfold Go.len in Hwg. lia.
Qed.

(** X7.  Mutual exclusion: at any time at most one worker is between its
    [Lock] and [Unlock], and then [processResults] is not; while the mutex
    is free nobody is. *)
Theorem one_goroutine_in_critical_section ds n (c : Config) :
  (Go.len ds ≤ Go.MaxInt)%Z → reachable ds n c →
  (∀ i j pi pj, workers c !! i = Some pi → workers c !! j = Some pj →
     critical pi = true → critical pj = true → i = j) ∧
  (∀ i pc, workers c !! i = Some pc → critical pc = true →
     reporting_critical (reporter c) = false) ∧
  (mu c = None →
     reporting_critical (reporter c) = false ∧
     ∀ i pc, workers c !! i = Some pc → critical pc = false).
Proof.
  intros Hfit Hr. pose proof (Inv_reachable _ _ _ Hfit Hr) as I.
  pose proof (inv_mu_worker _ _ _ I) as Hw.
  pose proof (inv_mu_main _ _ _ I) as Hm. clear I.
  split; [|split].
  - intros i j pi pj Hi Hj Ci Cj.
    apply Hw in Hi, Hj. apply Hi in Ci. apply Hj in Cj. congruence.
  - intros i pc Hi Ci. apply Hw in Hi. apply Hi in Ci.
    destruct (reporting_critical (reporter c)); [|done].
    destruct Hm as [Hm _]. specialize (Hm eq_refl). congruence.
  - intros Hmu. split.
    + destruct (reporting_critical (reporter c)); [|done].
      destruct Hm as [Hm _]. specialize (Hm eq_refl). congruence.
    + intros i pc Hi. apply Hw in Hi. destruct (critical pc); [|done].
      destruct Hi as [Hi _]. specialize (Hi eq_refl). congruence.
Qed.

(** X8.  Nothing is lost or doubled on the way, at any time: every input
    domain is with the feeder, in [domains], held by a worker or requested;
    every request's result is with a worker, in [results], with
    [processResults] or printed; every qualifying request's domain is in
    [successfulDomains] or about to be appended by its worker; and
    [processedDomains] is the number of lines printed, plus one while
    [processResults] has counted a result it has not printed yet. *)
Theorem nothing_lost_in_flight ds n (c : Config) :
  (Go.len ds ≤ Go.MaxInt)%Z → reachable ds n c →
  withScheme <$> ds ≡ₚ
    (request <$> wire c) ++
    (withScheme <$> (gather held (workers c) ++ buf (domains c) ++ unfed (feeder c))) ∧
  shown ∘ outcome <$> wire c ≡ₚ
    (line_shown <$> stdout c) ++
    (shown <$> (unprinted (reporter c) ++ buf (results c) ++ gather unsent (workers c))) ∧
  (λ p, Go.TrimPrefix (request p) "https://") <$> filter qualifies (wire c) ≡ₚ
    successfulDomains (sc c) ++ gather unrecorded (workers c) ∧
  processedDomains (sc c) = (Go.len (stdout c) + counted (reporter c))%Z.
Proof.
  intros Hfit Hr. pose proof (Inv_reachable _ _ _ Hfit Hr) as I.
  split; [apply (inv_domains _ _ _ I)|]. split; [apply (inv_results _ _ _ I)|].
  split; [apply (inv_success _ _ _ I)|apply (inv_processed _ _ _ I)].
Qed.

(** X9.  The line printed in position [k] (from 0) carries the percentage
    computed from the counter value [k + 1] and the number of domains. *)
Theorem line_shows_its_rank ds n (c : Config) k l :
  (Go.len ds ≤ Go.MaxInt)%Z → reachable ds n c →
  stdout c !! k = Some l →
  line_percentage l =
    percentage {| successfulDomains := []; totalDomains := Go.len ds;
                  processedDomains := Z.of_nat k + 1 |}.
Proof.
  intros Hfit Hr Hl. pose proof (Inv_reachable _ _ _ Hfit Hr) as I.
  pose proof (inv_stdout _ _ _ I) as Hout.
  apply (f_equal (λ x, x !! k)) in Hout.
  rewrite !list_lookup_fmap, Hl in Hout. simpl in Hout.
  rewrite lookup_seq_lt in Hout by (by eapply lookup_lt_Some).
  simpl in Hout. injection Hout as ->. rewrite percentage_eq. simpl.
  f_equal. lia.
Qed.

(** X10.  The URL built by the first statement of [checkDomain] always
    starts with ["http"], building it twice changes nothing, and so every
    request the program sends starts with ["http"]. *)
Theorem requests_start_with_http ds n (c : Config) :
  reachable ds n c →
  (∀ domain, Go.HasPrefix (withScheme domain) "http" = true ∧
             withScheme (withScheme domain) = withScheme domain) ∧
  ∀ p, p ∈ wire c → Go.HasPrefix (request p) "http" = true.
Proof.
  intros Hr.
  assert (∀ domain, Go.HasPrefix (withScheme domain) "http" = true) as Hpre.
  { intros domain. unfold withScheme.
    destruct (Go.HasPrefix domain "http") eqn:Hd; simpl; [done|].
    apply HasPrefix_app. by exists ("s://" +:+ domain). }
  split.
  { intros domain. split; [done|]. by apply withScheme_http. }
  unfold reachable in Hr. revert c Hr.
  apply (rtc_ind_r (λ c : Config, ∀ p, p ∈ wire c → Go.HasPrefix (request p) "http" = true)).
  - intros p []%elem_of_nil.
  - intros c c' _ [a Hexec] IH p.
    destruct c as [[? ? ?] ? [? ?] [? ?] ? ? ? ? ? ? ?]. simpl in *.
    exec_cases Hexec; try (by apply IH).
    all: intros [?|Hp]%elem_of_app; [by apply IH|].
    all: apply list_elem_of_singleton in Hp as ->; simpl; by apply Hpre.
Qed.

(** X11.  The steps of a worker from its [Get] to the point where it sends
    the result, run with a free mutex and nothing in between, do what
    [checkDomain] does: same request, same checker afterwards, same result
    to send; the mutex is free again and nothing else has changed. *)
Theorem worker_refines_checkDomain (c : Config) i domain net :
  workers c !! i = Some (WGet domain) → mu c = None →
  let out := checkDomain (λ _, net) (sc c) domain in
  ∃ k c', run (replicate k (Work i net)) c = Some c' ∧
    sc c' = checker out ∧
    workers c' = <[i := WSend (returned out)]> (workers c) ∧
    wire c' = wire c ++ [{| request := requested out; answer := net |}] ∧
    mu c' = None ∧
    domains c' = domains c ∧ results c' = results c ∧ wg c' = wg c ∧
    feeder c' = feeder c ∧ closer c' = closer c ∧ reporter c' = reporter c ∧
    stdout c' = stdout c.
Proof.
  intros Hl Hmu. unfold checkDomain.
  pose proof (lookup_lt_Some _ _ _ Hl) as Hlt.
  destruct net as [err|resp].
  { exists 1. eexists. simpl. unfold worker. rewrite Hl. simpl.
    split; [done|]. simpl. by destruct c as [[]]. }
  destruct (recorded (http.StatusCode resp)) eqn:Hrec.
  2:{ exists 1. eexists. simpl. unfold worker. rewrite Hl, Hrec. simpl.
      split; [done|]. simpl. by destruct c as [[]]. }
  exists 5. eexists. simpl. unfold worker at 1. rewrite Hl, Hrec.
  solo_step Hlt. rewrite Hmu. do 3 solo_step Hlt.
  split; [done|]. simpl. by rewrite !list_insert_insert_eq.
Qed.

Lemma omap_Permutation' {A B} (f : A → option B) (l1 l2 : list A) :
  l1 ≡ₚ l2 → omap f l1 ≡ₚ omap f l2.
Proof. intros Hp. by rewrite Hp. Qed.

(** X12.  When [processResults] returns, the failure lines are those of
    the probes whose [Get] failed, one each, and each shows the URL as it
    was requested. *)
Theorem failure_lines_are_failed_gets ds n (c : Config) :
  1 ≤ n → (Go.len ds ≤ Go.MaxInt)%Z → reachable ds n c → finished c →
  omap failure_shown (stdout c) ≡ₚ request <$> filter get_failed (wire c).
Proof.
  intros Hn Hfit Hr Hfin. pose proof (reachable_Final _ _ _ Hn Hfit Hr Hfin) as Fin.
  pose proof (fin_lines _ _ Fin) as Hl.
  apply (omap_Permutation' (λ x : string * option Z,
           match x.2 with None => Some x.1 | Some _ => None end)) in Hl.
  assert (∀ out : list (Line F),
            omap (λ x : string * option Z,
                    match x.2 with None => Some x.1 | Some _ => None end)
                 (line_shown <$> out) = omap failure_shown out) as Hout.
  { induction out as [|[d p|d code p] out IH]; simpl; [done|..];
      first [exact IH|f_equal; exact IH]. }
  assert (∀ ps : list Probe,
            omap (λ x : string * option Z,
                    match x.2 with None => Some x.1 | Some _ => None end)
                 (shown ∘ outcome <$> ps) = request <$> filter get_failed ps) as Hps.
  { induction ps as [|[req [err|resp]] ps IH]; [done|..];
      rewrite fmap_cons, filter_cons; simpl.
    - f_equal. exact IH.
    - exact IH. }
  by rewrite Hout, Hps in Hl.
Qed.

Lemma single_worker_finished ds (c : Config) :
  (Go.len ds ≤ Go.MaxInt)%Z → reachable ds 1 c → finished c →
  line_shown <$> stdout c = shown ∘ outcome <$> wire c ∧
  successfulDomains (sc c) =
    (λ p, Go.TrimPrefix (request p) "https://") <$> filter qualifies (wire c).
Proof.
  intros Hfit Hr Hfin. destruct (InOrder_reachable _ _ Hfit Hr) as [_ Hl Hs].
  pose proof (Inv_finished ds 1 c ltac:(lia) (Inv_reachable _ _ _ Hfit Hr) Hfin) as Fin.
  split; apply prefix_same_length.
  - rewrite Hl. by apply prefix_app_r.
  - apply Permutation_length, (fin_lines _ _ Fin).
  - rewrite Hs. by apply prefix_app_r.
  - apply Permutation_length, (fin_success _ _ Fin).
Qed.

(** X20.  When [processResults] returns, [successfulDomains] holds the
    domains shown on the status lines whose code is in [1, 500], each as
    the line shows it, one entry per line; with one worker also in the
    order of the lines.  So the list printed at the end repeats exactly the
    domains of those lines. *)
Theorem success_list_matches_lines ds n (c : Config) :
  1 ≤ n → (Go.len ds ≤ Go.MaxInt)%Z → reachable ds n c → finished c →
  successfulDomains (sc c) ≡ₚ omap recorded_shown (stdout c) ∧
  (n = 1 → successfulDomains (sc c) = omap recorded_shown (stdout c)).
Proof.
  intros Hn Hfit Hr Hfin. pose proof (reachable_Final _ _ _ Hn Hfit Hr Hfin) as Fin.
  set (g := λ x : string * option Z,
              match x.2 with
              | Some code => if recorded code then Some x.1 else None
              | None => None
              end).
  assert (∀ out : list (Line F),
            omap g (line_shown <$> out) = omap recorded_shown out) as Hout.
  { induction out as [|[d p|d code p] out IH]; simpl; [done|exact IH|].
    unfold g at 1. simpl. destruct (recorded code); [f_equal|]; exact IH. }
  assert (∀ ps : list Probe,
            omap g (shown ∘ outcome <$> ps) =
            (λ p, Go.TrimPrefix (request p) "https://") <$> filter qualifies ps) as Hps.
  { induction ps as [|[req [err|resp]] ps IH]; [done|..]; rewrite fmap_cons.
    - rewrite filter_cons_False by (unfold qualifies; simpl; tauto). exact IH.
    - simpl. unfold g at 1. simpl.
      destruct (recorded (http.StatusCode resp)) eqn:Hrec.
      + rewrite filter_cons_True by (apply Is_true_true; exact Hrec).
        rewrite fmap_cons. simpl. f_equal. exact IH.
      + rewrite filter_cons_False by (apply Is_true_false; exact Hrec).
        exact IH. }
  split.
  - rewrite (fin_success _ _ Fin), <- Hps, <- Hout.
    apply omap_Permutation'. symmetry. apply (fin_lines _ _ Fin).
  - intros ->. destruct (single_worker_finished _ _ Hfit Hr Hfin) as [Hl Hs].
    by rewrite Hs, <- Hps, <- Hout, Hl.
Qed.

Lemma workers_fixed ds n (c : Config) : reachable ds n c → length (workers c) = n.
Proof.
  unfold reachable. revert c. apply rtc_ind_r.
  - apply length_replicate.
  - intros c c' _ [a Hexec] IH.
    destruct c as [[? ? ?] ? [? ?] [? ?] ? ? ? ? ? ? ?]. simpl in *.
    exec_cases Hexec; by rewrite ?length_insert.
Qed.

End PipelineMore.

(* ===================================================================== *)
(** ** More on [main]: the host file, the speed loop, the summary         *)
(* ===================================================================== *)

Section MainMore.
Context {F : Type} `{Float64 F}.
Local Abbreviation Config := (Config F).
Variable TrimSpace : string → string.

(** X13.  The speed loop leaves with the first input that is a positive
    integer, having printed one "Invalid input" for each input before it;
    it never leaves when no input is one. *)
Theorem speed_is_first_valid_input inputs (out : list (Output F)) :
  (∀ speed,
     askSpeed inputs = (out, Some speed) ↔
     ∃ before input after,
       inputs = before ++ input :: after ∧ Forall rejected before ∧
       Go.Atoi input = Some speed ∧ (0 < speed)%Z ∧
       out = replicate (length before) OInvalid) ∧
  (askSpeed inputs = (out, None) ↔
     Forall rejected inputs ∧ out = replicate (length inputs) OInvalid).
Proof.
  revert out. induction inputs as [|input inputs IH]; intros out.
  { simpl. split.
    - intros speed. split; [done|]. intros (b & i & a & Hnil & _). by destruct b.
    - split; [by intros [= <-]|]. by intros [_ ->]. }
  assert (rejected input → ∀ r,
            (askSpeed (F:=F) (input :: inputs) = (out, r) ↔
             ∃ out', out = OInvalid :: out' ∧ askSpeed inputs = (out', r))) as Hrej.
  { intros Hin r. simpl. destruct (Go.Atoi input) as [s|] eqn:Ha.
    - specialize (Hin s Ha). destruct (Z.leb_spec s 0); [|lia].
      destruct (askSpeed inputs) as [o r']. split.
      + intros [= <- <-]. by exists o.
      + intros (o' & -> & [= <- <-]). done.
    - destruct (askSpeed inputs) as [o r']. split.
      + intros [= <- <-]. by exists o.
      + intros (o' & -> & [= <- <-]). done. }
  destruct (Go.Atoi input) as [s|] eqn:Ha.
  2:{ assert (rejected input) as Hin by (intros n; congruence). split.
      - intros speed. rewrite (Hrej Hin). split.
        + intros (o' & -> & Hask). apply (proj1 (IH _)) in Hask as (b & i & a & -> & Hb & ? & ? & ->).
          exists (input :: b), i, a. repeat split; try done. by constructor.
        + intros (b & i & a & Heq & Hb & Hi & Hpos & ->).
          destruct b as [|x b]; simpl in Heq; simplify_eq.
          inversion Hb; subst. eexists. split; [done|].
          apply (proj1 (IH _)). by exists b, i, a.
      - rewrite (Hrej Hin). split.
        + intros (o' & -> & Hask). apply (proj2 (IH _)) in Hask as [Hall ->]. split; [by constructor|done].
        + intros [Hall ->]. inversion Hall; subst. eexists. split; [done|]. by apply (proj2 (IH _)). }
  destruct (Z.leb_spec s 0) as [Hle|Hgt].
  { assert (rejected input) as Hin by (intros n ?; simplify_eq; lia). split.
      - intros speed. rewrite (Hrej Hin). split.
        + intros (o' & -> & Hask). apply (proj1 (IH _)) in Hask as (b & i & a & -> & Hb & ? & ? & ->).
          exists (input :: b), i, a. repeat split; try done. by constructor.
        + intros (b & i & a & Heq & Hb & Hi & Hpos & ->).
          destruct b as [|x b]; simpl in Heq; simplify_eq; [lia|].
          inversion Hb; subst. eexists. split; [done|].
          apply (proj1 (IH _)). by exists b, i, a.
      - rewrite (Hrej Hin). split.
        + intros (o' & -> & Hask). apply (proj2 (IH _)) in Hask as [Hall ->]. split; [by constructor|done].
        + intros [Hall ->]. inversion Hall; subst. eexists. split; [done|]. by apply (proj2 (IH _)). }
  assert (askSpeed (F:=F) (input :: inputs) = ([], Some s)) as Hask.
  { simpl. rewrite Ha. destruct (Z.leb_spec s 0); [lia|done]. }
  rewrite Hask. split.
  - intros speed. split.
    + intros [= <- <-]. by exists [], input, inputs.
    + intros (b & i & a & Heq & Hb & Hi & Hpos & ->).
      destruct b as [|x b]; simpl in Heq; simplify_eq; [done|].
      inversion Hb as [|?? Hx]; subst. specialize (Hx s Ha). lia.
  - split; [done|]. intros [Hall _]. inversion Hall as [|?? Hx]; subst.
    specialize (Hx s Ha). lia.
Qed.

Lemma askSpeed_Some_inv inputs (out : list (Output F)) speed :
  askSpeed inputs = (out, Some speed) →
  ∃ before input after,
    inputs = before ++ input :: after ∧ Forall rejected before ∧
    Go.Atoi input = Some speed ∧ out = replicate (length before) OInvalid.
Proof.
  revert out. induction inputs as [|input inputs IH]; intros out Hask;
    simpl in Hask; [done|].
  destruct (Go.Atoi input) as [s|] eqn:Ha.
  - destruct (Z.leb_spec s 0).
    + destruct (askSpeed inputs) as [o r] eqn:Hrec. simplify_eq.
      destruct (IH _ eq_refl) as (b & i & a & -> & Hb & Hi & ->).
      exists (input :: b), i, a. repeat split; try done.
      constructor; [|done]. intros n Hn. simplify_eq. lia.
    + simplify_eq. by exists [], input, inputs.
  - destruct (askSpeed inputs) as [o r] eqn:Hrec. simplify_eq.
    destruct (IH _ eq_refl) as (b & i & a & -> & Hb & Hi & ->).
    exists (input :: b), i, a. repeat split; try done.
    constructor; [|done]. intros n Hn. congruence.
Qed.

Lemma startup_Ready_inv env ds speed (out : list (Output F)) :
  startup TrimSpace env = Ready ds speed out →
  ∃ path rest content o,
    args env = path :: rest ∧ Open env path = inr content ∧
    ds = readDomains TrimSpace (bufio.Scan content) ∧ ds ≠ [] ∧
    askSpeed (stdin env) = (o, Some speed) ∧ out = OBanner :: OPrompt :: o.
Proof.
  unfold startup. intros Hs.
  destruct (args env) as [|path rest]; [done|].
  destruct (Open env path) as [err|content] eqn:Hopen; [done|].
  destruct (Go.len (readDomains TrimSpace (bufio.Scan content)) =? 0)%Z eqn:Hnone; [done|].
  destruct (askSpeed (stdin env)) as [o [s|]] eqn:Hask; [|done].
  simplify_eq. exists path, rest, content, o.
  repeat split; try done.
  apply Z.eqb_neq in Hnone. by intros Hnil; rewrite Hnil in Hnone.
Qed.

(** X14.  When [main] gets as far as starting the pool, the speed it uses
    is the first input at the prompt that is a positive integer, the banner
    and the prompt have been printed followed by one "Invalid input" for
    each input before that one, and the number of workers is that speed, in
    every configuration of the run. *)
Theorem pool_has_speed_workers env ds speed (out : list (Output F)) (c : Config) :
  startup TrimSpace env = Ready ds speed out →
  reachable ds (Z.to_nat speed) c →
  (0 < speed)%Z ∧ Z.of_nat (length (workers c)) = speed ∧
  ∃ before input after,
    stdin env = before ++ input :: after ∧ Forall rejected before ∧
    Go.Atoi input = Some speed ∧
    out = OBanner :: OPrompt :: replicate (length before) OInvalid.
Proof.
  intros Hs Hr.
  destruct (startup_Ready_inv _ _ _ _ Hs) as (path & rest & content & o & _ & _ & _ & _ & Hask & ->).
  pose proof (askSpeed_positive _ _ _ Hask) as Hpos.
  split; [done|]. split.
  - rewrite (workers_fixed _ _ _ Hr). lia.
  - apply askSpeed_Some_inv in Hask as (b & i & a & ? & ? & ? & ->).
    by exists b, i, a.
Qed.

(** X15.  In terms of the lines of the file.  Every file is a run of
    scannable lines (no newline inside, shorter than 64 KiB), each followed
    by a newline, and then nothing, or a line of 64 KiB or more with
    whatever comes after it, or a last scannable line without a newline.
    The host list is made of the scannable lines in the order of the file,
    each without its trailing "\r" and trimmed, those left out that are
    empty then; equal lines give equal entries, nothing is removed as a
    duplicate.  A last line without a newline counts as well.  A line of
    64 KiB or more gives nothing, and neither does anything after it. *)
Theorem host_list_is_trimmed_lines :
  (∀ content, ∃ lines tail,
     content = terminated lines +:+ tail ∧ Forall scannable lines ∧
     (tail = "" ∨ starts_too_long tail ∨ (scannable tail ∧ tail ≠ ""))) ∧
  (∀ lines tail, Forall scannable lines →
     (tail = "" ∨ starts_too_long tail →
        readDomains TrimSpace (bufio.Scan (terminated lines +:+ tail))
        = filter (λ domain, domain ≠ "") (TrimSpace ∘ bufio.dropCR <$> lines)) ∧
     (scannable tail → tail ≠ "" →
        readDomains TrimSpace (bufio.Scan (terminated lines +:+ tail))
        = filter (λ domain, domain ≠ "")
                 (TrimSpace ∘ bufio.dropCR <$> lines ++ [tail]))).
Proof.
  split; [exact file_lines|].
  intros lines tail Hlines. destruct (Scan_file lines tail Hlines) as [Hcut Hlast].
  split.
  - intros Htail. by rewrite (Hcut Htail), readDomains_filter, <- list_fmap_compose.
  - intros Ht Hne. by rewrite (Hlast Ht Hne), readDomains_filter, <- list_fmap_compose.
Qed.

(** X16.  Which message a usage error prints: the usage line exactly when
    there is no argument; the open error, with the error of [os.Open],
    exactly when the first argument cannot be opened; "No domains found"
    exactly when it can be opened and every line the scanner delivers is
    empty once trimmed.  That is the case in particular when no scannable
    line in front of the first line of 64 KiB or more is usable, whatever
    that line and the lines after it hold.  Arguments after the first are
    not looked at. *)
Theorem fatal_messages env :
  (startup (F:=F) TrimSpace env = Fatal [OUsage (prog env)] ↔ args env = []) ∧
  (∀ err, startup (F:=F) TrimSpace env = Fatal [OOpenError err] ↔
          ∃ path rest, args env = path :: rest ∧ Open env path = inl err) ∧
  (startup (F:=F) TrimSpace env = Fatal [ONoDomains] ↔
     ∃ path rest content,
       args env = path :: rest ∧ Open env path = inr content ∧
       ∀ text, text ∈ bufio.Scan content → TrimSpace text = "") ∧
  (∀ path rest lines tail,
     args env = path :: rest →
     Open env path = inr (terminated lines +:+ tail) →
     Forall scannable lines →
     tail = "" ∨ starts_too_long tail →
     Forall (λ line, TrimSpace (bufio.dropCR line) = "") lines →
     startup (F:=F) TrimSpace env = Fatal [ONoDomains]).
Proof.
  pose proof (startup_none (F:=F) TrimSpace env) as Hnone.
  split; [|split; [|split]].
  - unfold startup. destruct (args env) as [|path rest]; [done|].
    split; [|done]. destruct (Open env path) as [e|content]; [done|].
    destruct (Go.len (readDomains TrimSpace (bufio.Scan content)) =? 0)%Z; [done|].
    by destruct (askSpeed (stdin env)) as [o [s|]].
  - intros err. unfold startup. destruct (args env) as [|path rest].
    { split; [done|by intros (? & ? & ? & _)]. }
    destruct (Open env path) as [e|content] eqn:Hopen.
    + split.
      * intros ?. simplify_eq. by exists path, rest.
      * intros (? & ? & ? & ?). simplify_eq. congruence.
    + split.
      * destruct (Go.len (readDomains TrimSpace (bufio.Scan content)) =? 0)%Z; [done|].
        by destruct (askSpeed (stdin env)) as [o [s|]].
      * intros (? & ? & ? & ?). simplify_eq. congruence.
  - split.
    + intros Hs. unfold startup in Hs.
      destruct (args env) as [|path rest] eqn:Ha; [done|].
      destruct (Open env path) as [e|content] eqn:Ho; [done|].
      exists path, rest, content. split; [done|]. split; [done|].
      apply (Hnone path rest content eq_refl Ho). unfold startup. by rewrite Ha, Ho.
    + intros (path & rest & content & Ha & Ho & Hall).
      by apply (Hnone path rest content Ha Ho).
  - intros path rest lines tail Ha Ho Hlines Htail Hall.
    apply (Hnone _ _ _ Ha Ho).
    destruct (Scan_file lines tail Hlines) as [Hcut _]. rewrite (Hcut Htail).
    intros text (line & -> & Hl)%list_elem_of_fmap.
    rewrite Forall_forall in Hall. by apply Hall.
Qed.

(** X17.  Whenever [main] returns normally, what it has printed ends with
    one line per domain of the host list, the summary, and the successful
    domains; in the summary, total is the number of domains read from the
    file and of result lines, successful is the number of domains listed
    after it, successful plus failed is total, and failed is not negative. *)
Theorem summary_adds_up env out :
  file_fits env → main (F:=F) TrimSpace env 0 out →
  ∃ out0 lines total successful failed greens,
    out = out0 ++ (OResult <$> lines) ++ [OSummary total successful failed]
               ++ (OSuccessful <$> greens) ∧
    Forall (λ o, is_result o = false) out0 ∧
    (∃ path rest content,
       args env = path :: rest ∧ Open env path = inr content ∧
       total = Go.len (readDomains TrimSpace (bufio.Scan content))) ∧
    Go.len lines = total ∧ Go.len greens = successful ∧
    (successful + failed = total)%Z ∧ (0 ≤ failed)%Z ∧ (0 < total)%Z.
Proof.
  intros Hfit Hm.
  inversion Hm as [| |ds speed out0 sched c Hs Hrun Hfin]; subst.
  destruct (startup_Ready _ _ _ _ _ Hs Hfit) as (Hne & Hlen & Hn).
  destruct (startup_Ready_inv _ _ _ _ Hs) as (path & rest & text & o & Ha & Ho & Hds & _).
  assert (reachable ds (Z.to_nat speed) c) as Hr
    by (eapply run_reachable; [apply rtc_refl|exact Hrun]).
  pose proof (reachable_Final _ _ _ Hn Hlen Hr Hfin) as Fin.
  exists out0, (stdout c), (Go.len ds), (Go.len (successfulDomains (sc c))),
    (Go.int_sub (Go.len ds) (Go.len (successfulDomains (sc c)))),
    (successfulDomains (sc c)).
  split; [done|]. split; [by eapply startup_Ready_out|].
  split; [exists path, rest, text; by rewrite Hds|].
  pose proof (fin_printed _ _ Fin) as Hp.
  pose proof (fin_success _ _ Fin) as Hsucc. apply Permutation_length in Hsucc.
  pose proof (fin_requests _ _ Fin) as Hreq. apply Permutation_length in Hreq.
  rewrite !length_fmap in *.
  pose proof (length_filter qualifies (wire c)) as Hfl.
  assert (0 < length ds) by (destruct ds; [done|simpl; lia]).
  unfold Go.int_sub. rewrite wrap_small;
    unfold Go.len, Go.MinInt, Go.MaxInt in *; repeat split; lia.
Qed.

(** X18.  [main] exits, with whatever status, exactly when there is a usage
    error or a positive integer is typed at the prompt at some point;
    otherwise it asks for ever. *)
Theorem main_exits_iff env :
  file_fits env →
  (∃ code out, main (F:=F) TrimSpace env code out) ↔
  usage_error TrimSpace env ∨ speed_given env.
Proof.
  intros Hfit. split.
  - intros (code & out & Hm).
    destruct Hm as [out Hs|ds speed out sched c a msg Hs _ _|ds speed out sched c Hs _ _].
    + left. apply (startup_fatal (F:=F)). by exists out.
    + right. apply (askSpeed_given (F:=F)). unfold startup in Hs.
      destruct (args env) as [|path rest]; [done|].
      destruct (Open env path) as [err|content]; [done|].
      destruct (Go.len (readDomains TrimSpace (bufio.Scan content)) =? 0)%Z; [done|].
      destruct (askSpeed (stdin env)) as [o [s|]] eqn:Hask; [|done]. by exists o, s.
    + right. apply (askSpeed_given (F:=F)). unfold startup in Hs.
      destruct (args env) as [|path rest]; [done|].
      destruct (Open env path) as [err|content]; [done|].
      destruct (Go.len (readDomains TrimSpace (bufio.Scan content)) =? 0)%Z; [done|].
      destruct (askSpeed (stdin env)) as [o [s|]] eqn:Hask; [|done]. by exists o, s.
  - intros Hor.
    destruct (startup (F:=F) TrimSpace env) as [out|out|ds speed out] eqn:Hs.
    + exists 1%Z, out. by constructor.
    + exfalso. destruct Hor as [Herr|Hsp].
      * apply (startup_fatal (F:=F)) in Herr as [o Ho]. congruence.
      * apply (askSpeed_given (F:=F)) in Hsp as (o & s & Hask). unfold startup in Hs.
        destruct (args env) as [|path rest]; [done|].
        destruct (Open env path) as [err|content]; [done|].
        destruct (Go.len (readDomains TrimSpace (bufio.Scan content)) =? 0)%Z; [done|].
        by rewrite Hask in Hs.
    + destruct (startup_Ready _ _ _ _ _ Hs Hfit) as (_ & Hlen & Hn).
      destruct (can_finish ds (Z.to_nat speed) (start ds (Z.to_nat speed)))
        as (sched & c & Hrun & Hfin); [by apply Inv_start|].
      eexists 0%Z, _. by eapply main_return.
Qed.

End MainMore.

(* ===================================================================== *)
(** ** More on one call of [checkDomain]                                  *)
(* ===================================================================== *)

(** X19.  The [Result] of [checkDomain] tells whether the call appended to
    [successfulDomains]: it did exactly when the status code of the result
    is in [1, 500], and then what it appended is the result's [Domain], the
    requested URL without a leading ["https://"]; otherwise (a failed [Get]
    leaves the status code 0) the checker is as before and [Domain] is the
    requested URL, scheme included.  The counters are never touched. *)
Theorem result_tells_recorded Get sc domain :
  let out := checkDomain Get sc domain in
  let r := returned out in
  requested out = withScheme domain ∧
  totalDomains (checker out) = totalDomains sc ∧
  processedDomains (checker out) = processedDomains sc ∧
  ((1 ≤ StatusCode r ≤ 500)%Z →
     Error r = None ∧
     Domain r = Go.TrimPrefix (withScheme domain) "https://" ∧
     successfulDomains (checker out) = successfulDomains sc ++ [Domain r]) ∧
  (¬ (1 ≤ StatusCode r ≤ 500)%Z →
     checker out = sc ∧ Domain r = withScheme domain ∧
     Go.HasPrefix (Domain r) "http" = true).
Proof.
  assert (Go.HasPrefix (withScheme domain) "http" = true) as Hpre.
  { unfold withScheme. destruct (Go.HasPrefix domain "http") eqn:Hd; simpl; [done|].
    apply HasPrefix_app. by exists ("s://" +:+ domain). }
  unfold checkDomain. destruct (Get (withScheme domain)) as [err|resp]; simpl.
  { split; [done|]. split; [done|]. split; [done|]. split; [lia|done]. }
  unfold recorded.
  destruct (Z.leb_spec 1 (http.StatusCode resp));
    destruct (Z.leb_spec (http.StatusCode resp) 500); simpl.
  all: split; [done|]; split; [done|]; split; [done|]; split; [|intros ?].
  all: first [lia|done|by destruct sc].
Qed.

(* ===================================================================== *)
(** ** The further theorems on the example run                            *)
(* ===================================================================== *)

Lemma channels_bounded_witness :
  (Go.len (buf (domains demo_probing)) ≤ 100)%Z ∧
  (Go.len (buf (results demo_probing)) ≤ 100)%Z.
Proof. exact (channels_bounded demo_domains 1 demo_probing demo_probing_reachable). Defined.

Lemma workers_take_a_prefix_witness :
  ∃ taken,
    demo_domains = taken ++ buf (domains demo_probing) ++ unfed (feeder demo_probing) ∧
    withScheme <$> taken ≡ₚ
      (request <$> wire demo_probing) ++
      (withScheme <$> gather held (workers demo_probing)).
Proof.
  exact (workers_take_a_prefix demo_domains 1 demo_probing
           demo_fits demo_probing_reachable).
Defined.

Lemma single_worker_keeps_order_witness :
  line_shown <$> stdout demo_end = shown ∘ outcome <$> wire demo_end.
Proof.
  destruct (single_worker_keeps_order demo_domains demo_end demo_fits demo_reachable)
    as (_ & _ & _ & Hfin).
  destruct (Hfin eq_refl) as (_ & Hl & _). exact Hl.
Defined.

Lemma shared_state_grows_witness :
  wire demo_locked `prefix_of` wire demo_read ∧
  successfulDomains (sc demo_locked) `prefix_of` successfulDomains (sc demo_read).
Proof.
  destruct (shared_state_grows demo_domains 1 demo_locked demo_read
              demo_fits demo_locked_reachable
              (ex_intro _ (Work 0 (demo_reply 200)) eq_refl))
    as (Hs & _ & _ & Hw & _).
  split; [exact Hw|exact Hs].
Defined.

Lemma lock_holder_can_move_witness :
  ∃ c', exec (Work 0 (http.Failed "")) demo_locked = Next c'.
Proof.
  destruct (lock_holder_can_move demo_domains 1 demo_locked
              demo_fits demo_locked_reachable) as [Hw _].
  exact (Hw 0 (http.Failed "") eq_refl).
Defined.

Lemma shutdown_in_order_witness :
  wg demo_end = 0%Z ∧ ∀ i pc, workers demo_end !! i = Some pc → pc = WExit.
Proof.
  destruct (shutdown_in_order demo_domains 1 demo_end demo_fits demo_reachable)
    as (_ & _ & _ & Hcl).
  exact (Hcl eq_refl).
Defined.

Lemma one_goroutine_in_critical_section_witness :
  reporting_critical (reporter demo_locked) = false.
Proof.
  destruct (one_goroutine_in_critical_section demo_domains 1 demo_locked
              demo_fits demo_locked_reachable) as (_ & Hr & _).
  exact (Hr 0 _ eq_refl eq_refl).
Defined.

Lemma nothing_lost_in_flight_witness :
  processedDomains (sc demo_probing)
  = (Go.len (stdout demo_probing) + counted (reporter demo_probing))%Z.
Proof.
  destruct (nothing_lost_in_flight demo_domains 1 demo_probing
              demo_fits demo_probing_reachable) as (_ & _ & _ & Hp).
  exact Hp.
Defined.

Lemma line_shows_its_rank_witness :
  ∃ l, stdout demo_end !! 1 = Some l ∧
       line_percentage l =
         percentage {| successfulDomains := []; totalDomains := 3;
                       processedDomains := 2 |}.
Proof.
  eexists. split; [reflexivity|].
  exact (line_shows_its_rank demo_domains 1 demo_end 1 _ demo_fits demo_reachable eq_refl).
Defined.

Lemma requests_start_with_http_witness :
  Forall (λ p, Go.HasPrefix (request p) "http" = true) (wire demo_end).
Proof.
  destruct (requests_start_with_http demo_domains 1 demo_end demo_reachable) as [_ Hw].
  apply Forall_forall. exact Hw.
Defined.

Lemma worker_refines_checkDomain_witness :
  ∃ k c', run (replicate k (Work 0 (demo_reply 200))) demo_probing = Some c' ∧
          successfulDomains (sc c') = ["good.example"].
Proof.
  destruct (worker_refines_checkDomain demo_probing 0 "good.example" (demo_reply 200)
              eq_refl eq_refl) as (k & c' & Hrun & Hsc & _).
  exists k, c'. split; [exact Hrun|]. rewrite Hsc. reflexivity.
Defined.

Lemma failure_lines_are_failed_gets_witness :
  omap failure_shown (stdout demo_end) ≡ₚ ["https://bad.example"].
Proof.
  exact (failure_lines_are_failed_gets demo_domains 1 demo_end
           ltac:(lia) demo_fits demo_reachable eq_refl).
Defined.

Lemma pool_has_speed_workers_witness :
  Z.of_nat (length (workers (start (F:=Qc) demo_domains 5))) = 5%Z.
Proof.
  destruct (pool_has_speed_workers TrimSpaceASCII (demo_env ["-3"; "abc"; "5"])
              demo_domains 5 [OBanner; OPrompt; OInvalid; OInvalid]
              (start (F:=Qc) demo_domains 5) eq_refl (rtc_refl _ _)) as (_ & Hw & _).
  exact Hw.
Defined.

Lemma summary_adds_up_witness :
  ∃ out, main (F:=Qc) TrimSpaceASCII (demo_env ["1"]) 0 out ∧
    ∃ out0 lines total successful failed greens,
      out = out0 ++ (OResult <$> lines) ++ [OSummary total successful failed]
                 ++ (OSuccessful <$> greens) ∧
      (successful + failed = total)%Z ∧ (0 ≤ failed)%Z ∧ (0 < total)%Z.
Proof.
  assert (main (F:=Qc) TrimSpaceASCII (demo_env ["1"]) 0
            ([OBanner; OPrompt] ++ (OResult <$> stdout demo_end)
               ++ summary (Go.len demo_domains) (sc demo_end)
               ++ printGreenDomains (sc demo_end))) as Hm.
  { apply (main_return TrimSpaceASCII (demo_env ["1"]) demo_domains 1 [OBanner; OPrompt]
             demo_sched demo_end); [reflexivity|exact demo_run|reflexivity]. }
  eexists. split; [exact Hm|].
  destruct (summary_adds_up TrimSpaceASCII (demo_env ["1"]) _ (demo_file_fits _) Hm)
    as (out0 & lines & total & successful & failed & greens
        & Hout & _ & _ & _ & _ & Hsum & Hfailed & Htotal).
  exists out0, lines, total, successful, failed, greens.
  split; [exact Hout|]. split; [exact Hsum|]. split; [exact Hfailed|exact Htotal].
Defined.

Lemma main_exits_iff_witness :
  ∃ code out, main (F:=Qc) TrimSpaceASCII (demo_env ["-3"; "abc"; "5"]) code out.
Proof.
  apply (main_exits_iff (F:=Qc) TrimSpaceASCII (demo_env ["-3"; "abc"; "5"])
           (demo_file_fits _)).
  right. exists "5", 5%Z. split; [|by vm_compute].
  apply list_elem_of_In. simpl. tauto.
Defined.

Lemma result_tells_recorded_witness :
  successfulDomains
    (checker (checkDomain (λ _, demo_reply 200) (NewStatusChecker 1) "https://a.example"))
  = ["a.example"].
Proof.
  destruct (result_tells_recorded (λ _, demo_reply 200) (NewStatusChecker 1)
              "https://a.example") as (_ & _ & _ & Hin & _).
  destruct (Hin ltac:(simpl; lia)) as (_ & _ & Happ). exact Happ.
Defined.

Lemma success_list_matches_lines_witness :
  successfulDomains (sc demo_end) = omap recorded_shown (stdout demo_end).
Proof.
  destruct (success_list_matches_lines demo_domains 1 demo_end
              ltac:(lia) demo_fits demo_reachable eq_refl) as [_ Hone].
  exact (Hone eq_refl).
Defined.

Lemma speed_is_first_valid_input_witness :
  askSpeed (F:=Qc) ["-3"; "abc"; "5"] = ([OInvalid; OInvalid], Some 5%Z).
Proof.
  apply (proj1 (speed_is_first_valid_input (F:=Qc) ["-3"; "abc"; "5"]
                  [OInvalid; OInvalid])).
  exists ["-3"; "abc"], "5", []. split; [reflexivity|]. split.
  - repeat constructor; intros n Hn; vm_compute in Hn;
      first [discriminate|injection Hn as <-; lia].
  - split; [reflexivity|]. split; [lia|reflexivity].
Defined.

Lemma host_list_is_trimmed_lines_witness :
  readDomains TrimSpaceASCII (bufio.Scan demo_file) = demo_domains.
Proof.
  destruct (host_list_is_trimmed_lines TrimSpaceASCII) as [_ Hlist].
  destruct (Hlist ["  good.example "; ""; "bad.example" +:+ String "013" ""]
                  "weird.example") as [_ Hlast].
  { repeat constructor. }
  exact (Hlast ltac:(by split) ltac:(discriminate)).
Defined.

Lemma fatal_messages_witness :
  startup (F:=Qc) TrimSpaceASCII
    {| prog := "wolf"; args := ["hosts.txt"; "more"];
       Open := λ _, inl "no such file"; stdin := [] |}
  = Fatal [OOpenError "no such file"].
Proof.
  destruct (fatal_messages (F:=Qc) TrimSpaceASCII
              {| prog := "wolf"; args := ["hosts.txt"; "more"];
                 Open := λ _, inl "no such file"; stdin := [] |}) as (_ & Hopen & _).
  apply Hopen. exists "hosts.txt", ["more"]. split; reflexivity.
Defined.
